(** * Widget code generators: sample-JSON types and OpenAPI validators

    A shallow embedding of the two generator scripts of the repository,
    [codegen/src/index.ts] (sample JSON to TypeScript types and key paths)
    and the OpenAPI-to-valibot script with [transformSchema], together with
    the properties the specification states about them and further
    properties of the value map, the generated module and the accessors of
    the generated class. *)

From Stdlib Require Import String Ascii List ZArith Bool Lia DecimalString.
Import ListNotations.
Local Open Scope string_scope.

(** ** JavaScript values

    Both scripts take the result of [JSON.parse], typed [any].  A value is
    therefore a JSON value; [undefined] is added because the code tests for
    it and because a missing property reads as [undefined].

    An object is the list of its own properties in the order in which
    [Object.entries] yields them: for an object parsed from JSON text that
    is the order of the text, with the keys that are array indices moved
    to the front.  The keys of an object are distinct; no property below
    relies on it.

    A number is modelled by an integer: [JNumber n] is the number that
    [JSON.parse] reads from the integer literal [n].  The generators look
    at the type of a number and at its truthiness, where a fractional
    number behaves like a non-zero integer.  [transformSchema] prints the
    numbers among enum values, see [numberText]; a fractional number among
    them is outside the model. *)

Unset Elimination Schemes.
Inductive JsValue : Type :=
| JNull
| JUndefined
| JBool (b : bool)
| JNumber (n : Z)
| JString (s : string)
| JArray (elements : list JsValue)
| JObject (entries : list (string * JsValue)).
Set Elimination Schemes.

(** Characters that a Rocq string literal cannot hold directly. *)
Definition nl : string := String (ascii_of_nat 10) EmptyString.
Definition dq : string := String (ascii_of_nat 34) EmptyString.

(** [Array.prototype.join] on an array of strings. *)
Definition join (sep : string) (parts : list string) : string :=
  String.concat sep parts.

(** [Array.prototype.push], on the array passed along as state. *)
Definition push {A : Type} (array : list A) (item : A) : list A :=
  List.app array [item].

(** Decimal text of an array index. *)
Definition indexKey (i : nat) : string :=
  NilZero.string_of_uint (Nat.to_uint i).

(** *** The text of a number

    [JNumber n] is the number that [JSON.parse] reads from the integer
    literal [n]: the double nearest to [n].  Its text is what the
    conversion of a number to a string gives: the fewest significant digits
    that read back as the same double, written out in full below [1e21]
    and with an exponent from there on. *)

(** All the decimal digits of an integer. *)
Definition decimal (n : Z) : string :=
  NilZero.string_of_int (Z.to_int n).

(** The double nearest to a non-negative integer, ties to the even
    mantissa, as the integer it is; [None] when that is [Infinity]. *)
Definition nearestDouble (n : Z) : option Z :=
  let bits := if (n =? 0)%Z then 0%Z else (Z.log2 n + 1)%Z in
  if (bits <=? 53)%Z then Some n
  else
    let shift := (bits - 53)%Z in
    let q := Z.shiftr n shift in
    let r := (n - Z.shiftl q shift)%Z in
    let half := Z.shiftl 1 (shift - 1) in
    let q' := if (half <? r)%Z || ((r =? half)%Z && Z.odd q) then (q + 1)%Z else q in
    let v := Z.shiftl q' shift in
    if (v <? 2 ^ 1024)%Z then Some v else None.

(** The integer [m] reads as the double [v]. *)
Definition readsAs (v m : Z) : bool :=
  match nearestDouble m with
  | Some w => (w =? v)%Z
  | None => false
  end.

(** The multiple of [unit] that reads as [v], if one of the two around
    [v] does: the nearer one, and of two equally near the even one. *)
Definition shortestWith (v : Z) (unit : Z) : option Z :=
  let lo := (v / unit * unit)%Z in
  let hi := (lo + unit)%Z in
  match readsAs v lo, readsAs v hi with
  | true, true =>
      if (v - lo <? hi - v)%Z then Some lo
      else if (hi - v <? v - lo)%Z then Some hi
      else if Z.even (lo / unit) then Some lo else Some hi
  | true, false => Some lo
  | false, true => Some hi
  | false, false => None
  end.

(** The integer with the fewest significant digits that reads as [v]:
    the most trailing zeros come first. *)
Fixpoint shortestFrom (v : Z) (zeros : nat) : Z :=
  match shortestWith v (10 ^ Z.of_nat zeros) with
  | Some m => m
  | None => match zeros with
            | O => v
            | S zeros => shortestFrom v zeros
            end
  end.

Definition shortest (v : Z) : Z :=
  shortestFrom v (String.length (decimal v) - 1).

Fixpoint withoutTrailingZeros (digits : string) : string :=
  match digits with
  | EmptyString => EmptyString
  | String c rest =>
      match withoutTrailingZeros rest with
      | EmptyString => if Ascii.eqb c "0" then EmptyString else String c EmptyString
      | kept => String c kept
      end
  end.

(** The form with an exponent: [1e+21], [1.2e+21]. *)
Definition exponential (digits : string) : string :=
  match withoutTrailingZeros digits with
  | EmptyString => "0"
  | String first EmptyString =>
      String first EmptyString ++ "e+" ++ decimal (Z.of_nat (String.length digits - 1))
  | String first more =>
      String first EmptyString ++ "." ++ more ++ "e+"
        ++ decimal (Z.of_nat (String.length digits - 1))
  end.

Definition magnitudeText (n : Z) : string :=
  match nearestDouble n with
  | None => "Infinity"
  | Some v =>
      let digits := decimal (shortest v) in
      if (String.length digits <=? 21)%nat then digits else exponential digits
  end.

Definition numberText (n : Z) : string :=
  if (n <? 0)%Z then "-" ++ magnitudeText (- n) else magnitudeText n.

(** [typeof value === 'object' && value !== null]: arrays and plain objects. *)
Definition isObjectLike (value : JsValue) : bool :=
  match value with
  | JArray _ | JObject _ => true
  | _ => false
  end.

(** [typeof value === 'object' && value !== null && !Array.isArray(value)]. *)
Definition isPlainObject (value : JsValue) : bool :=
  match value with
  | JObject _ => true
  | _ => false
  end.

(** [Array.isArray(value)]. *)
Definition isArray (value : JsValue) : bool :=
  match value with
  | JArray _ => true
  | _ => false
  end.

(** [Object.entries] of an array: its elements under their indices. *)
Fixpoint indexedFrom (i : nat) (elements : list JsValue) : list (string * JsValue) :=
  match elements with
  | [] => []
  | x :: rest => (indexKey i, x) :: indexedFrom (S i) rest
  end.

(** [Object.entries] of a string: its characters under their indices. *)
Fixpoint charsFrom (i : nat) (s : string) : list (string * JsValue) :=
  match s with
  | EmptyString => []
  | String c rest => (indexKey i, JString (String c EmptyString)) :: charsFrom (S i) rest
  end.

(** The own properties [Object.entries] and [Object.keys] enumerate. *)
Definition ownEntries (value : JsValue) : list (string * JsValue) :=
  match value with
  | JObject entries => entries
  | JArray elements => indexedFrom 0 elements
  | JString s => charsFrom 0 s
  | _ => []
  end.

(** [Object.keys(value).length] of a plain object. *)
Definition keyCount (value : JsValue) : nat :=
  length (ownEntries value).

(** ** The identifier test of [generateTypeFromValue]

    [/^[a-zA-Z_$][a-zA-Z0-9_$]*$/.test(key)] *)

Definition inRange (lo hi : nat) (c : ascii) : bool :=
  (lo <=? nat_of_ascii c)%nat && (nat_of_ascii c <=? hi)%nat.

Definition isLower (c : ascii) : bool := inRange 97 122 c.
Definition isUpper (c : ascii) : bool := inRange 65 90 c.
Definition isDigit (c : ascii) : bool := inRange 48 57 c.

(** The class [[a-zA-Z_$]]. *)
Definition identStart (c : ascii) : bool :=
  isLower c || isUpper c || Ascii.eqb c "_" || Ascii.eqb c "$".

(** The class [[a-zA-Z0-9_$]]. *)
Definition identPart (c : ascii) : bool :=
  identStart c || isDigit c.

Fixpoint allChars (p : ascii -> bool) (s : string) : bool :=
  match s with
  | EmptyString => true
  | String c rest => p c && allChars p rest
  end.

Definition isIdentifierKey (key : string) : bool :=
  match key with
  | EmptyString => false
  | String c rest => identStart c && allChars identPart rest
  end.

(** [/^[a-zA-Z_$][a-zA-Z0-9_$]*$/.test(key) ? key : `"${key}"`] *)
Definition propName (key : string) : string :=
  if isIdentifierKey key then key else dq ++ key ++ dq.

(** ** [pascalCase] of the [change-case] package

    Modelled from the spec: [pascalCase] is imported from the [change-case]
    package, whose source is not part of the repository; the spec calls its
    result the capitalized-word form of a segment.  The model follows the
    package on ASCII input: the input is cut into words at every run of
    characters that are neither letters nor digits, between a lower-case
    letter or digit and an upper-case letter, and before the last capital
    of a run of capitals that is followed by a lower-case letter; the first
    character of each word is put in upper case and the rest in lower case,
    and a later word that starts with a digit gets an underscore in front. *)

Module ChangeCase.

Definition isAlnum (c : ascii) : bool := isLower c || isUpper c || isDigit c.

Definition toUpper (c : ascii) : ascii :=
  if isLower c then ascii_of_nat (nat_of_ascii c - 32) else c.

Definition toLower (c : ascii) : ascii :=
  if isUpper c then ascii_of_nat (nat_of_ascii c + 32) else c.

Fixpoint lowerCase (s : string) : string :=
  match s with
  | EmptyString => EmptyString
  | String c rest => String (toLower c) (lowerCase rest)
  end.

(** The word separator the package inserts and later splits on. *)
Definition sep : ascii := ascii_of_nat 0.

(** [/([a-z0-9])([A-Z])/g] replaced by ["$1\0$2"]. *)
Fixpoint splitLowerUpper (s : string) : string :=
  match s with
  | EmptyString => EmptyString
  | String a rest =>
      match rest with
      | String b _ =>
          if (isLower a || isDigit a) && isUpper b
          then String a (String sep (splitLowerUpper rest))
          else String a (splitLowerUpper rest)
      | EmptyString => String a EmptyString
      end
  end.

(** [/([A-Z])([A-Z][a-z])/g] replaced by ["$1\0$2"]. *)
Fixpoint splitUpperUpper (s : string) : string :=
  match s with
  | EmptyString => EmptyString
  | String a rest =>
      match rest with
      | String b (String c _) =>
          if isUpper a && isUpper b && isLower c
          then String a (String sep (splitUpperUpper rest))
          else String a (splitUpperUpper rest)
      | _ => String a (splitUpperUpper rest)
      end
  end.

Definition flush (word : string) : list string :=
  match word with
  | EmptyString => []
  | _ => [word]
  end.

(** [/[^A-Z0-9]+/gi] replaced by the separator, the separators at both
    ends trimmed, and the rest split at the separators: the maximal runs
    of letters and digits. *)
Fixpoint wordsOf (s : string) (word : string) : list string :=
  match s with
  | EmptyString => flush word
  | String c rest =>
      if isAlnum c
      then wordsOf rest (word ++ String c EmptyString)
      else (flush word ++ wordsOf rest EmptyString)%list
  end.

Definition split (input : string) : list string :=
  wordsOf (splitUpperUpper (splitLowerUpper input)) EmptyString.

Definition pascalCaseTransform (index : nat) (word : string) : string :=
  match word with
  | EmptyString => EmptyString
  | String firstChar rest =>
      if (0 <? index)%nat && isDigit firstChar
      then "_" ++ String firstChar (lowerCase rest)
      else String (toUpper firstChar) (lowerCase rest)
  end.

Fixpoint transformFrom (index : nat) (words : list string) : list string :=
  match words with
  | [] => []
  | word :: rest => pascalCaseTransform index word :: transformFrom (S index) rest
  end.

Definition pascalCase (input : string) : string :=
  join "" (transformFrom 0 (split input)).

End ChangeCase.

(** ** Sample JSON to types: [codegen/src/index.ts] *)

Section Codegen.

(** [pascalCase] is imported from the [change-case] package. *)
Variable pascalCase : string -> string.

(** The result never depends on [name] or [depth]; they are kept as the
    source passes them.  The [default] branch of the [switch] is not
    reachable for a JSON value or [undefined]. *)
Fixpoint generateTypeFromValue (value : JsValue) (name : string) (depth : nat)
  {struct value} : string :=
  match value with
  | JNull => "null"
  | JUndefined => "undefined"
  | JBool _ => "boolean"
  | JNumber _ => "number"
  | JString _ => "string"
  | JArray [] => "any[]"
  | JArray (first :: _) =>
      let elementType := generateTypeFromValue first (name ++ "Element") (depth + 1) in
      elementType ++ "[]"
  | JObject entries =>
      let properties :=
        join nl
          (map (fun entry : string * JsValue =>
                  let (key, val) := entry in
                  let propName := propName key in
                  let propType := generateTypeFromValue val (pascalCase key) (depth + 1) in
                  "  " ++ propName ++ ": " ++ propType ++ ";")
             entries) in
      "{" ++ nl ++ properties ++ nl ++ "}"
  end.

(** One iteration of the [forEach] of [extractInterfaces]; [descend] is
    the recursive call [extractInterfaces(value, interfaceName)], and
    [interfaces] the array the closure pushes to. *)
Definition interfaceStep (parentName key : string) (value : JsValue)
    (descend : string -> list string -> list string)
    (interfaces : list string) : list string :=
  if isPlainObject value then
    let interfaceName := pascalCase (parentName ++ key) in
    let interfaceType := generateTypeFromValue value interfaceName 0 in
    let interfaces :=
      if (3 <? keyCount value)%nat
      then push interfaces ("export interface " ++ interfaceName ++ " " ++ interfaceType)
      else interfaces in
    descend interfaceName interfaces
  else interfaces.

Fixpoint extractInterfaces (obj : JsValue) (parentName : string)
    (interfaces : list string) {struct obj} : list string :=
  match obj with
  | JObject entries =>
      fold_left
        (fun interfaces (entry : string * JsValue) =>
           let (key, value) := entry in
           interfaceStep parentName key value (extractInterfaces value) interfaces)
        entries interfaces
  | JArray elements =>
      (fix each (i : nat) (elements : list JsValue) (interfaces : list string) :=
         match elements with
         | [] => interfaces
         | value :: rest =>
             each (S i) rest
               (interfaceStep parentName (indexKey i) value
                  (extractInterfaces value) interfaces)
         end) 0%nat elements interfaces
  | _ => interfaces
  end.

(** The declaration [extractInterfaces] pushes for an object [value]
    under the name [interfaceName]. *)
Definition interfaceText (interfaceName : string) (value : JsValue) : string :=
  "export interface " ++ interfaceName ++ " "
    ++ generateTypeFromValue value interfaceName 0.

(** The name [extractInterfaces] has built when it has followed [path]
    down from an object it visited under [parentName]: every step
    computes [pascalCase(`${parentName}${key}`)] and passes the result on
    as the next [parentName]. *)
Definition interfaceNameAt (parentName : string) (path : list string) : string :=
  fold_left (fun parentName key => pascalCase (parentName ++ key)) path parentName.

Definition generateInterfacesFromJson (json : JsValue) : string :=
  let rootType := generateTypeFromValue json "Root" 0 in
  let interfaces := ["export interface WidgetData " ++ rootType] in
  let interfaces := extractInterfaces json "" interfaces in
  join (nl ++ nl) interfaces.

End Codegen.

(** [currentPath ? `${currentPath}.${key}` : key]: the empty string is the
    only falsy string. *)
Definition joinPath (currentPath key : string) : string :=
  if String.eqb currentPath "" then key else currentPath ++ "." ++ key.

(** One iteration of the [forEach] of [extractKeys]; [descend] is the
    recursive call [extractKeys(value, fullPath)] and [keys] the array the
    closure pushes to. *)
Definition keyStep (currentPath key : string) (value : JsValue)
    (descend : string -> list string -> list string)
    (keys : list string) : list string :=
  let fullPath := joinPath currentPath key in
  let keys := push keys ("'" ++ fullPath ++ "'") in
  if isPlainObject value then descend fullPath keys else keys.

Fixpoint extractKeys (obj : JsValue) (currentPath : string)
    (keys : list string) {struct obj} : list string :=
  match obj with
  | JObject entries =>
      fold_left
        (fun keys (entry : string * JsValue) =>
           let (key, value) := entry in
           keyStep currentPath key value (extractKeys value) keys)
        entries keys
  | JArray elements =>
      (fix each (i : nat) (elements : list JsValue) (keys : list string) :=
         match elements with
         | [] => keys
         | value :: rest =>
             each (S i) rest
               (keyStep currentPath (indexKey i) value (extractKeys value) keys)
         end) 0%nat elements keys
  | _ => keys
  end.

Definition generateKeyTypes (json : JsValue) (prefix : string) : list string :=
  extractKeys json prefix [].

(** ** OpenAPI to validators: the script with [transformSchema]

    A call either returns or throws; the script never catches inside
    [transformSchema], so an exception aborts the whole transformation.
    [OutOfFuel] is the outcome of a recursion that the model cuts short;
    [transformSchema_ends] shows that enough fuel excludes it. *)

Inductive JsError : Type :=
| TypeError.

Inductive completion (A : Type) : Type :=
| Returns (result : A)
| Throws (error : JsError)
| OutOfFuel.

Arguments Returns {A} result.
Arguments Throws {A} error.
Arguments OutOfFuel {A}.

Definition bind {A B : Type} (c : completion A) (k : A -> completion B) : completion B :=
  match c with
  | Returns a => k a
  | Throws e => Throws e
  | OutOfFuel => OutOfFuel
  end.

Notation "x <- c ;; k" := (bind c (fun x => k))
  (at level 61, c at next level, right associativity).

(** [array.map(f)] for a callback that may throw: left to right, stopping
    at the first exception. *)
Fixpoint mapM {A B : Type} (f : A -> completion B) (items : list A) : completion (list B) :=
  match items with
  | [] => Returns []
  | item :: rest =>
      b <- f item ;;
      bs <- mapM f rest ;;
      Returns (b :: bs)
  end.

Definition isNullish (value : JsValue) : bool :=
  match value with
  | JNull | JUndefined => true
  | _ => false
  end.

(** The value of an own property of an object, [undefined] when the
    object has none of that name. *)
Fixpoint lookup (key : string) (entries : list (string * JsValue)) : JsValue :=
  match entries with
  | [] => JUndefined
  | (k, v) :: rest => if String.eqb k key then v else lookup key rest
  end.

(** [value.key] and [value['key']] for the property names the script
    reads ([type], [properties], [items], [enum], [$ref]): reading from
    [null] or [undefined] throws, and arrays, strings, numbers and booleans
    have no property of these names. *)
Definition getProp (value : JsValue) (key : string) : completion JsValue :=
  match value with
  | JNull | JUndefined => Throws TypeError
  | JObject entries => Returns (lookup key entries)
  | _ => Returns JUndefined
  end.

(** [Object.entries(value)], which throws on [null] and [undefined]. *)
Definition objectEntries (value : JsValue) : completion (list (string * JsValue)) :=
  if isNullish value then Throws TypeError else Returns (ownEntries value).

(** [value === 'text']. *)
Definition isString (value : JsValue) (text : string) : bool :=
  match value with
  | JString s => String.eqb s text
  | _ => false
  end.

(** The truthiness an [if] tests. *)
Definition truthy (value : JsValue) : bool :=
  match value with
  | JNull | JUndefined => false
  | JBool b => b
  | JNumber n => negb (Z.eqb n 0)
  | JString s => negb (String.eqb s "")
  | JArray _ | JObject _ => true
  end.

(** [value] has an own property of the name [key]. *)
Definition hasOwn (key : string) (entries : list (string * JsValue)) : bool :=
  existsb (fun entry : string * JsValue => String.eqb (fst entry) key) entries.

(** The text a template literal puts in for [${value}], the conversion of
    the value to a string.  An array joins the conversions of its
    elements, with nothing for [null] and [undefined].  An object is
    converted by its [toString]: the inherited one gives
    [[object Object]]; an own property of that name, which in parsed JSON
    is never a function, hides it, and the conversion throws. *)
Fixpoint toStringJs (value : JsValue) : completion string :=
  match value with
  | JNull => Returns "null"
  | JUndefined => Returns "undefined"
  | JBool true => Returns "true"
  | JBool false => Returns "false"
  | JNumber n => Returns (numberText n)
  | JString s => Returns s
  | JArray elements =>
      parts <- mapM (fun element =>
                       if isNullish element then Returns "" else toStringJs element)
                 elements ;;
      Returns (join "," parts)
  | JObject entries =>
      if hasOwn "toString" entries then Throws TypeError
      else Returns "[object Object]"
  end.

(** [value.map(f)] for a callback that may throw: only an array has a
    callable [map]. *)
Definition arrayMap {B : Type} (f : JsValue -> completion B) (value : JsValue)
  : completion (list B) :=
  match value with
  | JArray elements => mapM f elements
  | _ => Throws TypeError
  end.

(** [text.split('/')]: the pieces between the separators, at least one. *)
Fixpoint splitOn (separator : ascii) (text : string) : list string :=
  match text with
  | EmptyString => [EmptyString]
  | String c rest =>
      if Ascii.eqb c separator
      then EmptyString :: splitOn separator rest
      else match splitOn separator rest with
           | piece :: pieces => String c piece :: pieces
           | [] => [String c EmptyString]
           end
  end.

(** [value.split('/')]: only a string has a callable [split]. *)
Definition stringSplit (value : JsValue) (separator : ascii) : completion (list string) :=
  match value with
  | JString s => Returns (splitOn separator s)
  | _ => Throws TypeError
  end.

(** [parts.pop()] of the non-empty result of [split]. *)
Definition pop (parts : list string) : string :=
  List.last parts EmptyString.

(** [fuel] bounds the depth of the recursion. *)
Fixpoint transformSchema (fuel : nat) (schema openapi : JsValue) {struct fuel}
  : completion string :=
  match fuel with
  | O => OutOfFuel
  | S fuel =>
      type <- getProp schema "type" ;;
      if isString type "object" then
        properties <- getProp schema "properties" ;;
        entries <- objectEntries properties ;;
        props <- mapM (fun entry : string * JsValue =>
                         let (key, value) := entry in
                         text <- transformSchema fuel value openapi ;;
                         Returns (key ++ ": " ++ text))
                   entries ;;
        Returns ("v.object({ " ++ join ", " props ++ " })")
      else if isString type "array" then
        items <- getProp schema "items" ;;
        text <- transformSchema fuel items openapi ;;
        Returns ("v.array(" ++ text ++ ")")
      else
        enum <- getProp schema "enum" ;;
        if truthy enum then
          literals <- arrayMap (fun v => text <- toStringJs v ;;
                                         Returns ("v.literal(" ++ dq ++ text ++ dq ++ ")"))
                        enum ;;
          Returns ("v.union([" ++ join ", " literals ++ "])")
        else if isString type "string" then
          Returns "v.string()"
        else if isString type "number" || isString type "integer" then
          Returns "v.number()"
        else if isString type "boolean" then
          Returns "v.boolean()"
        else
          ref <- getProp schema "$ref" ;;
          if truthy ref then
            parts <- stringSplit ref "/" ;;
            Returns (pop parts)
          else
            Returns "v.any()"
  end.

(** ** The notions the specification speaks in *)

(** A KeyPath is a sequence of segments, rendered as dot-joined text. *)
Definition KeyPath : Type := list string.

Definition renderKeyPath (path : KeyPath) : string := join "." path.

(** The keys of a tree in depth-first pre-order, each object in the order
    of its entries: one KeyPath per key, followed by the KeyPaths below it
    when its value is an object that is not an array.  Arrays contribute
    nothing. *)
Fixpoint keyPaths (value : JsValue) : list KeyPath :=
  match value with
  | JObject entries =>
      flat_map
        (fun entry : string * JsValue =>
           let (key, child) := entry in
           [key] :: map (cons key) (keyPaths child))
        entries
  | _ => []
  end.

(** The total count of keys at all depths reachable without crossing into
    array elements. *)
Fixpoint countKeys (value : JsValue) : nat :=
  match value with
  | JObject entries =>
      list_sum (map (fun entry : string * JsValue => S (countKeys (snd entry))) entries)
  | _ => 0
  end.

(** The text the extractor builds for a KeyPath below [currentPath]. *)
Definition pathText (currentPath : string) (path : KeyPath) : string :=
  fold_left joinPath path currentPath.

(** Every object-valued field of a tree with the KeyPath leading to it, in
    depth-first pre-order: fields are followed through nested objects and
    not through arrays. *)
Fixpoint objectFields (value : JsValue) : list (KeyPath * JsValue) :=
  match value with
  | JObject entries =>
      flat_map
        (fun entry : string * JsValue =>
           let (key, child) := entry in
           if isPlainObject child
           then ([key], child)
                  :: map (fun field : KeyPath * JsValue => (key :: fst field, snd field))
                       (objectFields child)
           else [])
        entries
  | _ => []
  end.

(** A value without the elements that follow the first one in its
    arrays, at every depth. *)
Fixpoint firstElementsOnly (value : JsValue) : JsValue :=
  match value with
  | JArray [] => JArray []
  | JArray (first :: _) => JArray [firstElementsOnly first]
  | JObject entries =>
      JObject (map (fun entry : string * JsValue =>
                      (fst entry, firstElementsOnly (snd entry)))
                 entries)
  | _ => value
  end.

(** More than 3 own keys. *)
Definition promoted (field : KeyPath * JsValue) : bool :=
  (3 <? keyCount (snd field))%nat.

(** [c] occurs in [s]. *)
Fixpoint hasChar (c : ascii) (s : string) : bool :=
  match s with
  | EmptyString => false
  | String d rest => Ascii.eqb d c || hasChar c rest
  end.

(** The identifier pattern [^[a-zA-Z_$][a-zA-Z0-9_$]*$] as a property of
    strings: a first character out of the letters, the underscore and the
    dollar sign, then only characters out of these and the digits. *)
Definition firstCharacters : string :=
  "abcdefghijklmnopqrstuvwxyzABCDEFGHIJKLMNOPQRSTUVWXYZ_$".

Definition laterCharacters : string :=
  "abcdefghijklmnopqrstuvwxyzABCDEFGHIJKLMNOPQRSTUVWXYZ0123456789_$".

Inductive IdentifierTail : string -> Prop :=
| tail_end : IdentifierTail EmptyString
| tail_more c rest :
    hasChar c laterCharacters = true -> IdentifierTail rest ->
    IdentifierTail (String c rest).

Inductive IdentifierPattern : string -> Prop :=
| identifier c rest :
    hasChar c firstCharacters = true -> IdentifierTail rest ->
    IdentifierPattern (String c rest).

(** The shapes the transformer recognizes, in its decision order; the
    first match wins. *)
Inductive Shape : Type :=
| ObjectShape | ArrayShape | EnumShape | StringShape | NumberShape | BooleanShape | RefShape.

(** A property of a schema node, [undefined] when it has none. *)
Definition field (node : JsValue) (key : string) : JsValue :=
  match node with
  | JObject entries => lookup key entries
  | _ => JUndefined
  end.

Definition decisionOrder : list (Shape * (JsValue -> bool)) :=
  [ (ObjectShape, fun node => isString (field node "type") "object");
    (ArrayShape, fun node => isString (field node "type") "array");
    (EnumShape, fun node => truthy (field node "enum"));
    (StringShape, fun node => isString (field node "type") "string");
    (NumberShape, fun node => isString (field node "type") "number"
                              || isString (field node "type") "integer");
    (BooleanShape, fun node => isString (field node "type") "boolean");
    (RefShape, fun node => truthy (field node "$ref")) ].

Fixpoint firstMatch (rules : list (Shape * (JsValue -> bool))) (node : JsValue)
  : option Shape :=
  match rules with
  | [] => None
  | (shape, test) :: rest => if test node then Some shape else firstMatch rest node
  end.

Definition shapeOf (node : JsValue) : option Shape := firstMatch decisionOrder node.

(** [name] is the last path segment of [target]: what follows the last
    slash, or all of [target] when it has none. *)
Definition LastSegment (target name : string) : Prop :=
  hasChar "/" name = false /\
  (target = name \/ exists before, target = before ++ "/" ++ name).

(** The literal validator for the text of one enum value. *)
Definition literalValidator (text : string) : string :=
  "v.literal(" ++ dq ++ text ++ dq ++ ")".

(** A value that has a text: it is no object with an own property
    [toString], and if it is an array, neither is any of its elements that
    are joined. *)
Fixpoint printable (value : JsValue) : bool :=
  match value with
  | JArray elements =>
      forallb (fun element => isNullish element || printable element) elements
  | JObject entries => negb (hasOwn "toString" entries)
  | _ => true
  end.

(** The nesting depth of a value, which bounds the recursion of
    [transformSchema]. *)
Fixpoint nestingDepth (value : JsValue) : nat :=
  match value with
  | JArray elements => S (fold_right (fun x d => Nat.max (nestingDepth x) d) 0%nat elements)
  | JObject entries =>
      S (fold_right (fun (entry : string * JsValue) d => Nat.max (nestingDepth (snd entry)) d)
           0%nat entries)
  | _ => 0
  end.

(** ** The rest of the two scripts *)

(** *** [generateValueTypeMapping] of [codegen/src/index.ts] *)

Section ValueMapping.

Variable pascalCase : string -> string.

(** One iteration of the [forEach] of [extractMappings]; [descend] is the
    recursive call [extractMappings(value, fullPath)] and [mappings] the
    array the closure pushes to. *)
Definition mappingStep (path key : string) (value : JsValue)
    (descend : string -> list string -> list string)
    (mappings : list string) : list string :=
  let fullPath := joinPath path key in
  let valueType := generateTypeFromValue pascalCase value (pascalCase key) 0 in
  let mappings := push mappings ("  '" ++ fullPath ++ "': " ++ valueType ++ ";") in
  if isPlainObject value then descend fullPath mappings else mappings.

Fixpoint extractMappings (obj : JsValue) (path : string)
    (mappings : list string) {struct obj} : list string :=
  match obj with
  | JObject entries =>
      fold_left
        (fun mappings (entry : string * JsValue) =>
           let (key, value) := entry in
           mappingStep path key value (extractMappings value) mappings)
        entries mappings
  | JArray elements =>
      (fix each (i : nat) (elements : list JsValue) (mappings : list string) :=
         match elements with
         | [] => mappings
         | value :: rest =>
             each (S i) rest
               (mappingStep path (indexKey i) value (extractMappings value) mappings)
         end) 0%nat elements mappings
  | _ => mappings
  end.

Definition generateValueTypeMapping (json : JsValue) : string :=
  join nl (extractMappings json "" []).

(** The line of the value map for an entry with the text of its path. *)
Definition mappingLine (entry : string * JsValue) : string :=
  "  '" ++ fst entry ++ "': "
    ++ generateTypeFromValue pascalCase (snd entry) "" 0 ++ ";".

End ValueMapping.

(** *** The module text of [generateValibotSchemas]

    The text the function builds between reading the input and writing the
    output: the import line and one exported constant per entry of
    [components.schemas], in the order of [for ... in].  [openapi] is the
    parsed input.  An exception of [transformSchema] leaves the loop and
    the function. *)

Fixpoint exportSchemas (fuel : nat) (openapi : JsValue)
    (schemas : list (string * JsValue)) (valibotSchema : string) : completion string :=
  match schemas with
  | [] => Returns valibotSchema
  | (schemaName, schema) :: rest =>
      text <- transformSchema fuel schema openapi ;;
      exportSchemas fuel openapi rest
        (valibotSchema ++ "export const " ++ schemaName ++ " = " ++ text ++ ";" ++ nl ++ nl)
  end.

Definition generateValibotSchemas (fuel : nat) (openapi : JsValue) : completion string :=
  let valibotSchema := "import * as v from 'valibot';" ++ nl ++ nl in
  components <- getProp openapi "components" ;;
  if truthy components then
    schemas <- getProp components "schemas" ;;
    if truthy schemas
    then exportSchemas fuel openapi (ownEntries schemas) valibotSchema
    else Returns valibotSchema
  else Returns valibotSchema.

(** *** Notions for the properties of this part *)

(** The entries a walk over a document visits below an object, each with
    the text of its path: every entry of the object, followed by the
    entries below it when its value is an object that is not an array. *)
Fixpoint locatedBelow (value : JsValue) (currentPath : string)
  : list (string * JsValue) :=
  match value with
  | JObject entries =>
      flat_map
        (fun entry : string * JsValue =>
           let (key, child) := entry in
           (joinPath currentPath key, child)
             :: locatedBelow child (joinPath currentPath key))
        entries
  | _ => []
  end.

(** The entries a walk visits from the document itself, where an array
    counts with its elements as entries. *)
Definition located (json : JsValue) (prefix : string) : list (string * JsValue) :=
  flat_map
    (fun entry : string * JsValue =>
       let (key, child) := entry in
       (joinPath prefix key, child) :: locatedBelow child (joinPath prefix key))
    (if isObjectLike json then ownEntries json else []).

(** The entry of the key list for an entry with the text of its path. *)
Definition quotedPath (entry : string * JsValue) : string :=
  "'" ++ fst entry ++ "'".

(** A value with the contents of its strings, numbers and booleans
    replaced by fixed ones: what is left is the shape. *)
Fixpoint withoutContents (value : JsValue) : JsValue :=
  match value with
  | JBool _ => JBool false
  | JNumber _ => JNumber 0
  | JString _ => JString ""
  | JArray elements => JArray (map withoutContents elements)
  | JObject entries =>
      JObject (map (fun entry : string * JsValue =>
                      (fst entry, withoutContents (snd entry)))
                 entries)
  | _ => value
  end.

(** One call of [transformSchema], with the function it calls for the
    schemas below as a parameter. *)
Definition transformStep (recur : JsValue -> JsValue -> completion string)
    (schema openapi : JsValue) : completion string :=
  type <- getProp schema "type" ;;
  if isString type "object" then
    properties <- getProp schema "properties" ;;
    entries <- objectEntries properties ;;
    props <- mapM (fun entry : string * JsValue =>
                     let (key, value) := entry in
                     text <- recur value openapi ;;
                     Returns (key ++ ": " ++ text))
               entries ;;
    Returns ("v.object({ " ++ join ", " props ++ " })")
  else if isString type "array" then
    items <- getProp schema "items" ;;
    text <- recur items openapi ;;
    Returns ("v.array(" ++ text ++ ")")
  else
    enum <- getProp schema "enum" ;;
    if truthy enum then
      literals <- arrayMap (fun v => text <- toStringJs v ;;
                                     Returns ("v.literal(" ++ dq ++ text ++ dq ++ ")"))
                    enum ;;
      Returns ("v.union([" ++ join ", " literals ++ "])")
    else if isString type "string" then
      Returns "v.string()"
    else if isString type "number" || isString type "integer" then
      Returns "v.number()"
    else if isString type "boolean" then
      Returns "v.boolean()"
    else
      ref <- getProp schema "$ref" ;;
      if truthy ref then
        parts <- stringSplit ref "/" ;;
        Returns (pop parts)
      else
        Returns "v.any()".

(** The validator of a primitive shape. *)
Definition primitiveValidator (shape : Shape) : string :=
  match shape with
  | StringShape => "v.string()"
  | NumberShape => "v.number()"
  | BooleanShape => "v.boolean()"
  | _ => ""
  end.

(** The field of an object validator for a property and the text of its
    schema. *)
Definition propertyText (property : (string * JsValue) * string) : string :=
  fst (fst property) ++ ": " ++ snd property.

(** The first line of the generated module and the export of one schema
    under its name. *)
Definition valibotImport : string := "import * as v from 'valibot';" ++ nl ++ nl.

Definition exportText (export : (string * JsValue) * string) : string :=
  "export const " ++ fst (fst export) ++ " = " ++ snd export ++ ";" ++ nl ++ nl.

(** A schema on which no step of [transformSchema] throws: an object
    schema whose [properties] is neither [null] nor [undefined] and holds
    such schemas, an array schema whose [items] is such a schema, an enum
    whose values are an array of values that have a text, a reference
    whose target is a string, a primitive, or a node of no recognized
    shape. *)
Unset Elimination Schemes.
Inductive Transformable : JsValue -> Prop :=
| transformable_object node :
    shapeOf node = Some ObjectShape ->
    isNullish (field node "properties") = false ->
    Forall (fun entry => Transformable (snd entry))
      (ownEntries (field node "properties")) ->
    Transformable node
| transformable_array node :
    shapeOf node = Some ArrayShape ->
    Transformable (field node "items") ->
    Transformable node
| transformable_enum node values :
    shapeOf node = Some EnumShape ->
    field node "enum" = JArray values ->
    forallb printable values = true ->
    Transformable node
| transformable_ref node target :
    shapeOf node = Some RefShape ->
    field node "$ref" = JString target ->
    Transformable node
| transformable_primitive node shape :
    shapeOf node = Some shape ->
    shape = StringShape \/ shape = NumberShape \/ shape = BooleanShape ->
    Transformable node
| transformable_other node :
    isNullish node = false ->
    shapeOf node = None ->
    Transformable node.
Set Elimination Schemes.

(** *** The class [Widget] that [generateWidgetClass] emits

    [data] is the private field of an instance.  The operator [in] also
    finds the properties an object or array inherits from its prototype,
    and the loops of [get] and [has] go on from the value of such a
    property.  That value belongs to the runtime, not to the data: a
    method, a prototype, or what a prototype holds.  The class is
    therefore modelled over a runtime, given by the type [native] of its
    values and by
    - [inherited current k]: the value of [current[k]] when [k] is no own
      property of the object or array [current] and [k in current] holds;
    - [nativeObject b]: [b && typeof b === 'object'], which holds for a
      prototype and not for a method;
    - [nativeProperty b k]: the value of [b[k]] when [k in b] holds, for a
      [b] that [nativeObject] accepts. *)

Module Widget.

(** The value of an own property of an object, if it has one of that
    name. *)
Fixpoint lookupOwn (key : string) (entries : list (string * JsValue)) : option JsValue :=
  match entries with
  | [] => None
  | (k, v) :: rest => if String.eqb k key then Some v else lookupOwn key rest
  end.

(** [current[k]] for an own property of an object or array: an entry of
    the object, an element of the array or its [length]. *)
Definition ownProperty (current : JsValue) (k : string) : option JsValue :=
  match current with
  | JObject entries => lookupOwn k entries
  | JArray elements =>
      if String.eqb k "length"
      then Some (JNumber (Z.of_nat (length elements)))
      else lookupOwn k (indexedFrom 0 elements)
  | _ => None
  end.

(** What [get] returns: a value of the data, or a value of the runtime. *)
Inductive reading (native : Type) : Type :=
| Value (value : JsValue)
| Builtin (value : native).

Arguments Value {native} value.
Arguments Builtin {native} value.

Section Class.

Variable native : Type.
Variable inherited : JsValue -> string -> option native.
Variable nativeObject : native -> bool.
Variable nativeProperty : native -> string -> option native.

(** The loop of [get] over the keys that are left, once [current] is a
    value of the runtime. *)
Fixpoint getNative (keys : list string) (current : native) : reading native :=
  match keys with
  | [] => Builtin current
  | k :: rest =>
      if nativeObject current then
        match nativeProperty current k with
        | Some value => getNative rest value
        | None => Value JUndefined
        end
      else Value JUndefined
  end.

(** The loop of [get] over the keys that are left. *)
Fixpoint getLoop (keys : list string) (current : JsValue) : reading native :=
  match keys with
  | [] => Value current
  | k :: rest =>
      if truthy current && isObjectLike current then
        match ownProperty current k with
        | Some value => getLoop rest value
        | None =>
            match inherited current k with
            | Some value => getNative rest value
            | None => Value JUndefined
            end
        end
      else Value JUndefined
  end.

Definition get (data : JsValue) (key : string) : reading native :=
  if String.eqb key "" then Value data
  else getLoop (splitOn "." key) data.

(** The loop of [has] over the keys that are left, once [current] is a
    value of the runtime. *)
Fixpoint hasNative (keys : list string) (current : native) : bool :=
  match keys with
  | [] => true
  | k :: rest =>
      if nativeObject current then
        match nativeProperty current k with
        | Some value => hasNative rest value
        | None => false
        end
      else false
  end.

(** The loop of [has] over the keys that are left. *)
Fixpoint hasLoop (keys : list string) (current : JsValue) : bool :=
  match keys with
  | [] => true
  | k :: rest =>
      if truthy current && isObjectLike current then
        match ownProperty current k with
        | Some value => hasLoop rest value
        | None =>
            match inherited current k with
            | Some value => hasNative rest value
            | None => false
            end
        end
      else false
  end.

Definition has (data : JsValue) (key : string) : bool :=
  if String.eqb key "" then true
  else hasLoop (splitOn "." key) data.

End Class.

Arguments getNative {native} nativeObject nativeProperty keys current.
Arguments getLoop {native} inherited nativeObject nativeProperty keys current.
Arguments get {native} inherited nativeObject nativeProperty data key.
Arguments hasNative {native} nativeObject nativeProperty keys current.
Arguments hasLoop {native} inherited nativeObject nativeProperty keys current.
Arguments has {native} inherited nativeObject nativeProperty data key.

(** The part of a runtime that the examples touch: an object inherits
    the methods [toString] and [hasOwnProperty] and, under [__proto__],
    its prototype; the prototype holds the same methods, and [null] under
    [__proto__]. *)
Inductive sample : Type :=
| Method
| Prototype
| Null.

Definition sampleInherited (current : JsValue) (k : string) : option sample :=
  if String.eqb k "toString" || String.eqb k "hasOwnProperty" then Some Method
  else if String.eqb k "__proto__" then Some Prototype
  else None.

Definition sampleObject (value : sample) : bool :=
  match value with
  | Prototype => true
  | _ => false
  end.

Definition sampleProperty (value : sample) (k : string) : option sample :=
  if String.eqb k "toString" || String.eqb k "hasOwnProperty" then Some Method
  else if String.eqb k "__proto__" then Some Null
  else None.

End Widget.

(** No key is repeated. *)
Fixpoint noRepeat (keys : list string) : bool :=
  match keys with
  | [] => true
  | key :: rest => negb (existsb (String.eqb key) rest) && noRepeat rest
  end.

(** The keys of a document can be told apart in a dot-joined path: below
    every object the keys are distinct and hold no dot. *)
Fixpoint dotFreeKeys (value : JsValue) : bool :=
  match value with
  | JObject entries =>
      noRepeat (map fst entries)
      && forallb
           (fun entry : string * JsValue =>
              let (key, child) := entry in
              negb (hasChar "." key) && dotFreeKeys child)
           entries
  | _ => true
  end.

(** No key of the document itself is the empty string. *)
Definition namedEntries (json : JsValue) : bool :=
  forallb (fun entry : string * JsValue => negb (String.eqb (fst entry) ""))
    (ownEntries json).

(** * Properties *)

(** Induction over a value and, below an array or object, over all the
    values it holds. *)
Lemma JsValue_ind (P : JsValue -> Prop) :
  P JNull -> P JUndefined ->
  (forall b, P (JBool b)) -> (forall n, P (JNumber n)) -> (forall s, P (JString s)) ->
  (forall elements, Forall P elements -> P (JArray elements)) ->
  (forall entries, Forall (fun entry => P (snd entry)) entries -> P (JObject entries)) ->
  forall value, P value.
Proof.
  intros Hnull Hundef Hbool Hnum Hstr Harr Hobj.
  fix IH 1.
  intros [ | | b | n | s | elements | entries].
  - exact Hnull.
  - exact Hundef.
  - apply Hbool.
  - apply Hnum.
  - apply Hstr.
  - apply Harr. revert elements.
    fix inner 1. intros [ | x rest]; constructor; [apply IH | apply inner].
  - apply Hobj. revert entries.
    fix inner 1. intros [ | [key x] rest]; constructor; [apply IH | apply inner].
Qed.

(** The character ranges of the two classes hold the characters the
    pattern lists, and no others. *)
Lemma identStart_characters (c : ascii) : identStart c = hasChar c firstCharacters.
Proof.
  destruct c as [b0 b1 b2 b3 b4 b5 b6 b7].
  destruct b0, b1, b2, b3, b4, b5, b6, b7; reflexivity.
Qed.

Lemma identPart_characters (c : ascii) : identPart c = hasChar c laterCharacters.
Proof.
  destruct c as [b0 b1 b2 b3 b4 b5 b6 b7].
  destruct b0, b1, b2, b3, b4, b5, b6, b7; reflexivity.
Qed.

Lemma allChars_tail (s : string) : allChars identPart s = true <-> IdentifierTail s.
Proof.
  induction s as [ | c rest IH]; cbn [allChars].
  - split; [constructor | reflexivity].
  - rewrite andb_true_iff, IH, identPart_characters. split.
    + intros [Hc Hrest]. now constructor.
    + intros H. inversion H; subst. now split.
Qed.

Lemma isIdentifierKey_pattern (key : string) :
  isIdentifierKey key = true <-> IdentifierPattern key.
Proof.
  destruct key as [ | c rest]; cbn [isIdentifierKey].
  - split; [discriminate | intros H; inversion H].
  - rewrite andb_true_iff, allChars_tail, identStart_characters. split.
    + intros [Hc Hrest]. now constructor.
    + intros H. inversion H; subst. now split.
Qed.

Lemma length_append (s t : string) :
  String.length (s ++ t) = (String.length s + String.length t)%nat.
Proof.
  induction s as [ | c s IH]; simpl; [reflexivity | now rewrite IH].
Qed.

Lemma quoted_differs (key : string) : dq ++ key ++ dq <> key.
Proof.
  intros H. apply (f_equal String.length) in H.
  rewrite !length_append in H. simpl in H. lia.
Qed.

Section TypeInference.

Variable pascalCase : string -> string.


(** The text of an object type, field by field. *)
Lemma infer_object (entries : list (string * JsValue)) (name : string) (depth : nat) :
  generateTypeFromValue pascalCase (JObject entries) name depth
  = "{" ++ nl
      ++ join nl
           (map (fun entry : string * JsValue =>
                   "  " ++ propName (fst entry) ++ ": "
                     ++ generateTypeFromValue pascalCase (snd entry)
                          (pascalCase (fst entry)) (depth + 1)
                     ++ ";")
              entries)
      ++ nl ++ "}".
Proof.
  cbn [generateTypeFromValue]. do 3 f_equal. unfold join. f_equal.
  apply map_ext. now intros [key value].
Qed.

(** The inferred text depends on the value alone, not on the name and
    depth the caller passes along. *)
Lemma infer_context_free (value : JsValue) :
  forall name depth name' depth',
    generateTypeFromValue pascalCase value name depth
    = generateTypeFromValue pascalCase value name' depth'.
Proof.
  induction value as [ | | b | n | s | elements IH | entries IH]
    using JsValue_ind; intros name d name' d'; try reflexivity.
  - destruct elements as [ | first rest]; [reflexivity | ].
    cbn [generateTypeFromValue]. inversion IH as [ | ? ? Hfirst _]; subst.
    f_equal. apply Hfirst.
  - rewrite !infer_object. do 3 f_equal. unfold join. f_equal.
    induction IH as [ | [key value] rest Hvalue _ IHrest]; [reflexivity | ].
    cbn [map fst snd] in *. rewrite IHrest.
    now rewrite (Hvalue (pascalCase key) (d + 1)%nat (pascalCase key) (d' + 1)%nat).
Qed.

(** Nothing but the first element of an array is looked at, at any
    depth. *)
Lemma infer_first_elements (value : JsValue) :
  forall name depth,
    generateTypeFromValue pascalCase value name depth
    = generateTypeFromValue pascalCase (firstElementsOnly value) name depth.
Proof.
  induction value as [ | | b | n | s | elements IH | entries IH]
    using JsValue_ind; intros name d; try reflexivity.
  - destruct elements as [ | first rest]; [reflexivity | ].
    cbn [firstElementsOnly generateTypeFromValue].
    inversion IH as [ | ? ? Hfirst _]; subst.
    f_equal. apply Hfirst.
  - cbn [firstElementsOnly]. rewrite !infer_object. do 3 f_equal.
    unfold join. f_equal. rewrite map_map.
    induction IH as [ | [key value] rest Hvalue _ IHrest]; [reflexivity | ].
    cbn [map fst snd] in *. now rewrite IHrest, <- Hvalue.
Qed.

(** C5: the element type of a non-empty array is the type of its first
    element; the elements after it have no influence, so an array of a
    string followed by a number is inferred as [string[]].  The same holds
    for the arrays inside a value: removing all later elements changes
    nothing. *)
Theorem array_type_is_first_element_type (first : JsValue) (rest : list JsValue)
    (name : string) (depth : nat) :
  generateTypeFromValue pascalCase (JArray (first :: rest)) name depth
    = generateTypeFromValue pascalCase first (name ++ "Element") (depth + 1) ++ "[]"
  /\ (forall others, generateTypeFromValue pascalCase (JArray (first :: others)) name depth
                     = generateTypeFromValue pascalCase (JArray (first :: rest)) name depth)
  /\ (forall s n,
        generateTypeFromValue pascalCase (JArray [JString s; JNumber n]) name depth
        = "string[]")
  /\ (forall value, generateTypeFromValue pascalCase value name depth
                    = generateTypeFromValue pascalCase (firstElementsOnly value) name depth).
Proof.
  repeat split; try reflexivity.
  intros value. apply infer_first_elements.
Qed.

(** C6: an empty array is inferred as [any[]], whatever name and depth
    the surrounding walk passes; as the first element of an array and as
    the value of a field it contributes that same text. *)
Theorem empty_array_is_any_array (name : string) (depth : nat) :
  generateTypeFromValue pascalCase (JArray []) name depth = "any[]"
  /\ (forall rest,
        generateTypeFromValue pascalCase (JArray (JArray [] :: rest)) name depth
        = "any[]" ++ "[]")
  /\ (forall key,
        generateTypeFromValue pascalCase (JObject [(key, JArray [])]) name depth
        = "{" ++ nl ++ ("  " ++ propName key ++ ": " ++ "any[]" ++ ";") ++ nl ++ "}").
Proof.
  repeat split; reflexivity.
Qed.

(** C9, as amended: an undefined value is inferred as the type text
    [undefined]; the call returns and does not fail. *)
Theorem undefined_is_inferred_as_undefined (name : string) (depth : nat) :
  generateTypeFromValue pascalCase JUndefined name depth = "undefined".
Proof.
  reflexivity.
Qed.

(** C10: in the text of an object type every field is one line made of
    the field name, the inferred type of the value and a semicolon; the
    field name is the bare key exactly when the key matches the
    identifier pattern and the key in double quotes exactly when it does
    not.  The equation holds for every object, at every depth. *)
Theorem field_name_bare_iff_identifier :
  (forall key, (IdentifierPattern key <-> propName key = key)
               /\ (~ IdentifierPattern key <-> propName key = dq ++ key ++ dq))
  /\ (forall entries name depth,
        generateTypeFromValue pascalCase (JObject entries) name depth
        = "{" ++ nl
            ++ join nl
                 (map (fun entry : string * JsValue =>
                         "  " ++ propName (fst entry) ++ ": "
                           ++ generateTypeFromValue pascalCase (snd entry)
                                (pascalCase (fst entry)) (depth + 1)
                           ++ ";")
                    entries)
            ++ nl ++ "}").
Proof.
  split.
  - intros key. unfold propName.
    destruct (isIdentifierKey key) eqn:Hkey.
    + apply isIdentifierKey_pattern in Hkey. split; split; intros H; auto.
      * contradiction.
      * symmetry in H. now apply quoted_differs in H.
    + assert (Hnot : ~ IdentifierPattern key).
      { intros H. apply isIdentifierKey_pattern in H. congruence. }
      split; split; intros H; auto.
      * contradiction.
      * now apply quoted_differs in H.
  - intros entries name d. apply infer_object.
Qed.

End TypeInference.

(** ** The interface synthesizer *)

Lemma filter_promoted_below (key : string) (fields : list (KeyPath * JsValue)) :
  filter promoted (map (fun f : KeyPath * JsValue => (key :: fst f, snd f)) fields)
  = map (fun f : KeyPath * JsValue => (key :: fst f, snd f)) (filter promoted fields).
Proof.
  induction fields as [ | [path value] rest IH]; [reflexivity | ].
  unfold promoted in *. cbn [map filter fst snd].
  destruct (3 <? keyCount value)%nat; cbn [map fst snd]; now rewrite IH.
Qed.

Section InterfaceSynthesizer.

Variable pascalCase : string -> string.

Local Abbreviation nameAt := (interfaceNameAt pascalCase).
Local Abbreviation declare :=
  (fun (parentName : string) (f : KeyPath * JsValue) =>
     interfaceText pascalCase (nameAt parentName (fst f)) (snd f)).

(** The walk of [extractInterfaces] over an object pushes, in order, the
    declarations of the object-valued fields that have more than 3 keys. *)
Lemma extractInterfaces_walk (value : JsValue) :
  forall entries, value = JObject entries ->
  forall parentName interfaces,
    extractInterfaces pascalCase value parentName interfaces
    = (interfaces
         ++ map (declare parentName) (filter promoted (objectFields value)))%list.
Proof.
  induction value as [ | | b | n | s | elements IH | entries IH]
    using JsValue_ind; intros entries' Heq; try discriminate.
  injection Heq as <-.
  intros parentName interfaces.
  cbn [extractInterfaces objectFields].
  revert interfaces.
  induction IH as [ | [key child] rest Hchild _ IHrest]; intros interfaces.
  - cbn. now rewrite app_nil_r.
  - cbn [fold_left flat_map]. rewrite IHrest. clear IHrest.
    rewrite filter_app, map_app, app_assoc. f_equal.
    unfold interfaceStep. cbn [snd] in Hchild.
    destruct child as [ | | b | n | s | elements | entries];
      cbn [isPlainObject]; try (cbn; now rewrite app_nil_r).
    rewrite (Hchild entries eq_refl).
    cbn [filter]. rewrite filter_promoted_below.
    replace (promoted ([key], JObject entries))
      with (3 <? keyCount (JObject entries))%nat by reflexivity.
    destruct (3 <? keyCount (JObject entries))%nat; cbn [map]; rewrite map_map.
    + unfold push. rewrite <- app_assoc. reflexivity.
    + reflexivity.
Qed.

(** C2: the interfaces pushed for an object are the declarations of its
    object-valued fields, at every depth reached through objects and not
    through arrays, that have more than 3 own keys, one each and in the
    order of the walk; fields with 0, 1, 2 or 3 keys push nothing. *)
Theorem promoted_iff_more_than_three_keys
    (entries : list (string * JsValue)) (parentName : string)
    (interfaces : list string) :
  extractInterfaces pascalCase (JObject entries) parentName interfaces
  = (interfaces
       ++ map (declare parentName)
            (filter (fun f => (3 <? keyCount (snd f))%nat)
               (objectFields (JObject entries))))%list
  /\ (forall f : KeyPath * JsValue, promoted f = true <-> 3 < keyCount (snd f))
  /\ (forall f : KeyPath * JsValue, promoted f = false <-> keyCount (snd f) <= 3).
Proof.
  split; [ | split].
  - exact (extractInterfaces_walk (JObject entries) entries eq_refl
             parentName interfaces).
  - intros f. unfold promoted. apply Nat.ltb_lt.
  - intros f. unfold promoted. rewrite Nat.ltb_ge. reflexivity.
Qed.

(** C3, as amended: a declaration is pushed exactly for the object-valued
    fields with more than 3 keys, and the name in it is the one built
    along the path to the field: from the empty name, each step appends
    the next segment to the name so far and applies [pascalCase] to the
    whole. *)
Theorem interface_name_follows_path (entries : list (string * JsValue))
    (declaration : string) :
  (In declaration (extractInterfaces pascalCase (JObject entries) "" [])
   <-> exists path value,
         In (path, value) (objectFields (JObject entries))
         /\ 3 < keyCount value
         /\ declaration = interfaceText pascalCase (nameAt "" path) value)
  /\ (forall parentName, nameAt parentName [] = parentName)
  /\ (forall parentName key path,
        nameAt parentName (key :: path)
        = nameAt (pascalCase (parentName ++ key)) path).
Proof.
  split; [ | split; reflexivity].
  rewrite (extractInterfaces_walk (JObject entries) entries eq_refl).
  cbn [app]. rewrite in_map_iff. split.
  - intros [[path value] [Hdecl Hin]].
    apply filter_In in Hin. destruct Hin as [Hin Hsize].
    exists path, value. repeat split; auto.
    unfold promoted in Hsize. now apply Nat.ltb_lt in Hsize.
  - intros (path & value & Hin & Hsize & ->).
    exists (path, value). split; [reflexivity | ].
    apply filter_In. split; [assumption | ].
    unfold promoted. now apply Nat.ltb_lt.
Qed.

End InterfaceSynthesizer.

(** C3 as stated fails: with the package's [pascalCase], the nested object
    of the document
    [{"widget":{"window":{"title":"X","width":1,"height":2,"resizable":true}}}]
    is declared under the name [Widgetwindow]: the name passed down for
    [widget] is [Widget], and [pascalCase] finds no word boundary inside
    [Widgetwindow].  The concatenation of the capitalized segments would be
    [WidgetWindow]. *)
Lemma widget_window_is_named_Widgetwindow :
  extractInterfaces ChangeCase.pascalCase
    (JObject [("widget",
               JObject [("window",
                         JObject [("title", JString "X"); ("width", JNumber 1);
                                  ("height", JNumber 2); ("resizable", JBool true)])])])
    "" []
  = ["export interface Widgetwindow {" ++ nl
       ++ "  title: string;" ++ nl ++ "  width: number;" ++ nl
       ++ "  height: number;" ++ nl ++ "  resizable: boolean;" ++ nl ++ "}"]
  /\ interfaceNameAt ChangeCase.pascalCase "" ["widget"; "window"] = "Widgetwindow"
  /\ join "" (map ChangeCase.pascalCase ["widget"; "window"]) = "WidgetWindow"
  /\ interfaceNameAt ChangeCase.pascalCase "" ["widget"; "window"]
     <> join "" (map ChangeCase.pascalCase ["widget"; "window"]).
Proof.
  repeat split; try reflexivity.
  vm_compute. discriminate.
Qed.

(** Where [pascalCase] does see the boundary, the segment is capitalized. *)
Example names_with_visible_boundaries :
  interfaceNameAt ChangeCase.pascalCase "" ["widget"; "Window"] = "WidgetWindow"
  /\ interfaceNameAt ChangeCase.pascalCase "" ["widget"; "_window"] = "WidgetWindow"
  /\ interfaceNameAt ChangeCase.pascalCase "" ["widget"; "window"; "size"]
     = "Widgetwindowsize".
Proof.
  repeat split; reflexivity.
Qed.

(** The boundary of the promotion: an object field with 3 keys pushes
    nothing, one with 4 keys is declared. *)
Example promotion_boundary :
  extractInterfaces ChangeCase.pascalCase
    (JObject [("small", JObject [("a", JNull); ("b", JNull); ("c", JNull)]);
              ("empty", JObject []);
              ("list", JArray [JObject [("a", JNull); ("b", JNull);
                                        ("c", JNull); ("d", JNull)]]);
              ("big", JObject [("a", JNull); ("b", JNull); ("c", JNull); ("d", JNull)])])
    "" []
  = ["export interface Big {" ++ nl ++ "  a: null;" ++ nl ++ "  b: null;" ++ nl
       ++ "  c: null;" ++ nl ++ "  d: null;" ++ nl ++ "}"].
Proof.
  reflexivity.
Qed.

(** ** The key path extractor *)

Lemma append_assoc (s t u : string) : (s ++ t) ++ u = s ++ t ++ u.
Proof.
  induction s as [ | c s IH]; simpl; [reflexivity | now rewrite IH].
Qed.

(** The walk of [extractKeys] over an object pushes, in order, the quoted
    text of every KeyPath of the object. *)
Lemma extractKeys_walk (value : JsValue) :
  forall entries, value = JObject entries ->
  forall currentPath keys,
    extractKeys value currentPath keys
    = List.app keys
        (map (fun path => "'" ++ pathText currentPath path ++ "'") (keyPaths value)).
Proof.
  induction value as [ | | b | n | s | elements IH | entries IH]
    using JsValue_ind; intros entries' Heq; try discriminate.
  injection Heq as <-.
  intros currentPath keys.
  cbn [extractKeys keyPaths].
  revert keys.
  induction IH as [ | [key child] rest Hchild _ IHrest]; intros keys.
  - cbn. now rewrite app_nil_r.
  - cbn [fold_left flat_map]. rewrite IHrest. clear IHrest.
    rewrite map_app, app_assoc. f_equal.
    unfold keyStep. cbn [snd] in Hchild.
    destruct child as [ | | b | n | s | elements | entries];
      cbn [isPlainObject keyPaths map]; try reflexivity.
    rewrite (Hchild entries eq_refl).
    cbn [map]. rewrite map_map. unfold push. rewrite <- app_assoc. reflexivity.
Qed.

(** For a document that is not an array the extractor returns one quoted
    text per KeyPath of the document, in depth-first pre-order. *)
Lemma generateKeyTypes_not_array (json : JsValue) :
  isArray json = false ->
  generateKeyTypes json ""
  = map (fun path => "'" ++ pathText "" path ++ "'") (keyPaths json).
Proof.
  intros Harray. unfold generateKeyTypes.
  destruct json as [ | | b | n | s | elements | entries]; try reflexivity.
  - discriminate.
  - now rewrite (extractKeys_walk (JObject entries) entries eq_refl).
Qed.

Lemma keyPaths_count (value : JsValue) : length (keyPaths value) = countKeys value.
Proof.
  induction value as [ | | b | n | s | elements IH | entries IH]
    using JsValue_ind; try reflexivity.
  cbn [keyPaths countKeys].
  induction IH as [ | [key child] rest Hchild _ IHrest]; [reflexivity | ].
  unfold list_sum in *. cbn [flat_map map fold_right snd] in *.
  rewrite length_app. cbn [length]. rewrite length_map.
  f_equal; [f_equal; exact Hchild | exact IHrest].
Qed.

(** As many paths as keys reachable without crossing into an array. *)
Lemma generateKeyTypes_count (json : JsValue) :
  isArray json = false -> length (generateKeyTypes json "") = countKeys json.
Proof.
  intros Harray.
  now rewrite generateKeyTypes_not_array, length_map, keyPaths_count.
Qed.

Lemma pathText_below (currentPath : string) (path : KeyPath) :
  currentPath <> "" -> pathText currentPath path = renderKeyPath (currentPath :: path).
Proof.
  revert currentPath.
  induction path as [ | key rest IH]; intros currentPath Hne; [reflexivity | ].
  unfold pathText in *. cbn [fold_left]. unfold joinPath at 2.
  destruct (String.eqb_spec currentPath ""); [contradiction | ].
  rewrite IH.
  - unfold renderKeyPath, join. cbn [String.concat].
    destruct rest; [reflexivity | ]. cbn [String.concat]. now rewrite !append_assoc.
  - destruct currentPath; [contradiction | discriminate].
Qed.

(** The text of a KeyPath is its dot-joined rendering, provided its first
    segment is not the empty key. *)
Lemma pathText_dot_joined (key : string) (path : KeyPath) :
  key <> "" -> pathText "" (key :: path) = renderKeyPath (key :: path).
Proof.
  intros Hne. unfold pathText. cbn [fold_left].
  change (joinPath "" key) with key. now apply pathText_below.
Qed.

(** The example of the specification. *)
Example generateKeyTypes_example :
  generateKeyTypes
    (JObject [("a", JObject [("b", JNumber 1); ("c", JNumber 2)]);
              ("d", JArray [JNumber 1; JNumber 2; JNumber 3])]) ""
  = ["'a'"; "'a.b'"; "'a.c'"; "'d'"].
Proof.
  reflexivity.
Qed.

(** Below the empty key the text loses that segment: the test
    [currentPath ? ... : key] takes the path of the empty key for the root. *)
Example generateKeyTypes_empty_key :
  generateKeyTypes (JObject [("", JObject [("a", JNumber 1)])]) "" = ["''"; "'a'"]
  /\ map renderKeyPath (keyPaths (JObject [("", JObject [("a", JNumber 1)])]))
     = [""; ".a"].
Proof.
  split; reflexivity.
Qed.

(** C1 at a document that is an array: the elements of the array are
    walked under their indices, and the keys of an element that is an
    object are reached through the array.  No key of this document is
    reachable without crossing into an array element. *)
Theorem array_root_elements_yield_paths :
  generateKeyTypes (JArray [JObject [("a", JNumber 1)]]) "" = ["'0'"; "'0.a'"]
  /\ keyPaths (JArray [JObject [("a", JNumber 1)]]) = []
  /\ countKeys (JArray [JObject [("a", JNumber 1)]]) = 0.
Proof.
  repeat split; reflexivity.
Qed.

(** ** The walks, as the source writes them

    Both walks return at once unless [typeof obj === 'object'] and [obj] is
    not [null], and otherwise run their step over [Object.entries(obj)] in
    order. *)

Lemma extractKeys_forEach (obj : JsValue) (currentPath : string) (keys : list string) :
  extractKeys obj currentPath keys
  = if isObjectLike obj
    then fold_left
           (fun keys (entry : string * JsValue) =>
              let (key, value) := entry in
              keyStep currentPath key value (extractKeys value) keys)
           (ownEntries obj) keys
    else keys.
Proof.
  destruct obj as [ | | b | n | s | elements | entries]; try reflexivity.
  cbn [extractKeys isObjectLike ownEntries].
  generalize 0%nat. revert keys.
  induction elements as [ | value rest IH]; intros keys i; [reflexivity | ].
  cbn [indexedFrom fold_left]. apply IH.
Qed.

Lemma extractInterfaces_forEach (pascalCase : string -> string) (obj : JsValue)
    (parentName : string) (interfaces : list string) :
  extractInterfaces pascalCase obj parentName interfaces
  = if isObjectLike obj
    then fold_left
           (fun interfaces (entry : string * JsValue) =>
              let (key, value) := entry in
              interfaceStep pascalCase parentName key value
                (extractInterfaces pascalCase value) interfaces)
           (ownEntries obj) interfaces
    else interfaces.
Proof.
  destruct obj as [ | | b | n | s | elements | entries]; try reflexivity.
  cbn [extractInterfaces isObjectLike ownEntries].
  generalize 0%nat. revert interfaces.
  induction elements as [ | value rest IH]; intros interfaces i; [reflexivity | ].
  cbn [indexedFrom fold_left]. apply IH.
Qed.

(** ** The schema transformer *)

(** Reading a property of anything but [null] and [undefined] succeeds. *)
Lemma getProp_field (schema : JsValue) (key : string) :
  isNullish schema = false -> getProp schema key = Returns (field schema key).
Proof.
  destruct schema; intros H; try reflexivity; discriminate.
Qed.

Lemma field_defined (schema : JsValue) (key : string) :
  field schema key <> JUndefined -> isNullish schema = false.
Proof.
  destruct schema; intros H; try reflexivity; now contradiction H.
Qed.

Lemma splitOn_nonempty (separator : ascii) (text : string) :
  splitOn separator text <> [].
Proof.
  destruct text as [ | c rest]; cbn [splitOn]; [discriminate | ].
  destruct (Ascii.eqb c separator); [discriminate | ].
  destruct (splitOn separator rest); discriminate.
Qed.

Lemma splitOn_pieces (separator : ascii) (text : string) :
  Forall (fun piece => hasChar separator piece = false) (splitOn separator text).
Proof.
  induction text as [ | c rest IH]; cbn [splitOn].
  - now constructor.
  - destruct (Ascii.eqb c separator) eqn:Hc.
    + now constructor.
    + destruct (splitOn separator rest) as [ | piece pieces].
      * constructor; [ | constructor]. cbn. now rewrite Hc.
      * inversion IH; subst. constructor; [ | assumption].
        cbn [hasChar]. now rewrite Hc.
Qed.

(** Joining the pieces with the separator gives the text back. *)
Lemma splitOn_join (separator : ascii) (text : string) :
  join (String separator EmptyString) (splitOn separator text) = text.
Proof.
  unfold join.
  induction text as [ | c rest IH]; cbn [splitOn]; [reflexivity | ].
  destruct (Ascii.eqb_spec c separator) as [-> | Hc].
  - pose proof (splitOn_nonempty separator rest) as Hne.
    destruct (splitOn separator rest) as [ | piece pieces]; [contradiction | ].
    change (String separator (String.concat (String separator "") (piece :: pieces))
            = String separator rest).
    now rewrite IH.
  - destruct (splitOn separator rest) as [ | piece pieces].
    + cbn in IH. now subst.
    + destruct pieces as [ | next pieces].
      * cbn in *. now subst.
      * change (String c (String.concat (String separator "") (piece :: next :: pieces))
                = String c rest).
        now rewrite IH.
Qed.

Lemma join_snoc (sep : string) (init : list string) (x : string) :
  init <> [] ->
  join sep (List.app init [x]) = join sep init ++ sep ++ x.
Proof.
  unfold join.
  induction init as [ | a rest IH]; intros Hne; [contradiction | ].
  destruct rest as [ | b rest]; [reflexivity | ].
  change (String.concat sep (List.app (a :: b :: rest) [x]))
    with (a ++ sep ++ String.concat sep (List.app (b :: rest) [x])).
  rewrite IH by discriminate.
  change (String.concat sep (a :: b :: rest))
    with (a ++ sep ++ String.concat sep (b :: rest)).
  now rewrite !append_assoc.
Qed.

(** [split('/').pop()] is the last path segment. *)
Lemma pop_split_last_segment (target : string) :
  LastSegment target (pop (splitOn "/" target)).
Proof.
  unfold LastSegment, pop.
  pose proof (splitOn_nonempty "/" target) as Hne.
  pose proof (splitOn_pieces "/" target) as Hpieces.
  pose proof (splitOn_join "/" target) as Hjoin.
  destruct (exists_last Hne) as (init & name & Hsplit).
  rewrite Hsplit in *. rewrite last_last.
  split.
  - apply Forall_app in Hpieces. destruct Hpieces as [_ Hname].
    now inversion Hname.
  - destruct init as [ | a init].
    + left. now rewrite <- Hjoin.
    + right. exists (join "/" (a :: init)).
      rewrite <- Hjoin at 1. now apply join_snoc.
Qed.

(** C4, as amended: a schema node that matches none of the shapes of the
    decision order is transformed to the accept-anything validator, and
    the call returns without throwing, for every amount of fuel that
    allows one step, unless the node is [null] or [undefined]; on these,
    which match none of the shapes either, the call throws a
    [TypeError]. *)
Theorem unrecognized_shape_is_any (schema openapi : JsValue) (fuel : nat) :
  shapeOf schema = None ->
  transformSchema (S fuel) schema openapi
  = if isNullish schema then Throws TypeError else Returns "v.any()".
Proof.
  intros Hshape.
  destruct (isNullish schema) eqn:Hnode.
  { destruct schema; try discriminate; reflexivity. }
  unfold shapeOf in Hshape. cbn [decisionOrder firstMatch] in Hshape.
  destruct (isString (field schema "type") "object") eqn:Hobject; [discriminate | ].
  destruct (isString (field schema "type") "array") eqn:Harray; [discriminate | ].
  destruct (truthy (field schema "enum")) eqn:Henum; [discriminate | ].
  destruct (isString (field schema "type") "string") eqn:Hstring; [discriminate | ].
  destruct (isString (field schema "type") "number"
            || isString (field schema "type") "integer") eqn:Hnumber; [discriminate | ].
  destruct (isString (field schema "type") "boolean") eqn:Hboolean; [discriminate | ].
  destruct (truthy (field schema "$ref")) eqn:Href; [discriminate | ].
  cbn [transformSchema].
  rewrite !getProp_field by assumption. cbn [bind].
  now rewrite Hobject, Harray, Henum, Hstring, Hnumber, Hboolean, Href.
Qed.

(** C7: a node whose shape is a reference, with the reference target a
    string, is transformed to the last path segment of the target, and to
    nothing else: the result is the same whatever the document, which
    holds the referenced schema, contains. *)
Theorem ref_is_last_segment (schema openapi : JsValue) (fuel : nat) (target : string) :
  shapeOf schema = Some RefShape ->
  field schema "$ref" = JString target ->
  transformSchema (S fuel) schema openapi = Returns (pop (splitOn "/" target))
  /\ LastSegment target (pop (splitOn "/" target))
  /\ (forall document,
        transformSchema (S fuel) schema document
        = transformSchema (S fuel) schema openapi).
Proof.
  intros Hshape Htarget.
  assert (Hnode : isNullish schema = false).
  { apply (field_defined schema "$ref"). now rewrite Htarget. }
  unfold shapeOf in Hshape. cbn [decisionOrder firstMatch] in Hshape.
  destruct (isString (field schema "type") "object") eqn:Hobject; [discriminate | ].
  destruct (isString (field schema "type") "array") eqn:Harray; [discriminate | ].
  destruct (truthy (field schema "enum")) eqn:Henum; [discriminate | ].
  destruct (isString (field schema "type") "string") eqn:Hstring; [discriminate | ].
  destruct (isString (field schema "type") "number"
            || isString (field schema "type") "integer") eqn:Hnumber; [discriminate | ].
  destruct (isString (field schema "type") "boolean") eqn:Hboolean; [discriminate | ].
  destruct (truthy (field schema "$ref")) eqn:Href; [ | discriminate].
  assert (Hcall : forall document,
             transformSchema (S fuel) schema document
             = Returns (pop (splitOn "/" target))).
  { intros document. cbn [transformSchema].
    rewrite !getProp_field by assumption. cbn [bind].
    rewrite Hobject, Harray, Henum, Hstring, Hnumber, Hboolean, Href.
    now rewrite Htarget. }
  split; [apply Hcall | split].
  - apply pop_split_last_segment.
  - intros document. now rewrite !Hcall.
Qed.

(** *** The text of enum values *)

Lemma mapM_then {A B C : Type} (f : A -> completion B) (g : B -> C) (items : list A) :
  mapM (fun item => b <- f item ;; Returns (g b)) items
  = (bs <- mapM f items ;; Returns (map g bs)).
Proof.
  induction items as [ | item rest IH]; cbn [mapM]; [reflexivity | ].
  destruct (f item) as [b | e | ]; cbn [bind]; try reflexivity.
  rewrite IH.
  destruct (mapM f rest) as [bs | e | ]; reflexivity.
Qed.

(** A [map] returns when its callback returns on every item, and throws
    when the callback throws on one and returns on those before it. *)
Lemma mapM_outcome {A B : Type} (f : A -> completion B) (ok : A -> bool)
    (items : list A) :
  Forall (fun item => (ok item = true /\ exists b, f item = Returns b)
                      \/ (ok item = false /\ f item = Throws TypeError)) items ->
  (forallb ok items = true /\ exists bs, mapM f items = Returns bs)
  \/ (forallb ok items = false /\ mapM f items = Throws TypeError).
Proof.
  induction 1 as [ | item rest Hitem _ IH]; cbn [mapM forallb].
  - left. split; [reflexivity | now exists []].
  - destruct Hitem as [[-> [b ->]] | [-> ->]]; cbn [bind andb].
    + destruct IH as [[-> [bs ->]] | [-> ->]]; cbn [bind].
      * left. split; [reflexivity | now exists (b :: bs)].
      * right. now split.
    + right. now split.
Qed.

(** The conversion to a string returns exactly on the values that
    [printable] accepts, and throws a [TypeError] on the others. *)
Lemma toStringJs_outcome (value : JsValue) :
  (printable value = true /\ exists text, toStringJs value = Returns text)
  \/ (printable value = false /\ toStringJs value = Throws TypeError).
Proof.
  induction value as [ | | b | n | s | elements IH | entries _] using JsValue_ind;
    cbn [toStringJs printable].
  - left. split; [reflexivity | now eexists].
  - left. split; [reflexivity | now eexists].
  - left. split; [reflexivity | destruct b; now eexists].
  - left. split; [reflexivity | now eexists].
  - left. split; [reflexivity | now eexists].
  - destruct (mapM_outcome
                (fun element => if isNullish element then Returns "" else toStringJs element)
                (fun element => isNullish element || printable element) elements)
      as [[-> [parts ->]] | [-> ->]]; cbn [bind].
    + eapply Forall_impl; [ | exact IH]. intros element Helement.
      destruct (isNullish element); cbn [orb]; [ | exact Helement].
      left. split; [reflexivity | now eexists].
    + left. split; [reflexivity | now eexists].
    + right. now split.
  - destruct (hasOwn "toString" entries); cbn [negb].
    + right. now split.
    + left. split; [reflexivity | now eexists].
Qed.

Lemma toStringJs_values (values : list JsValue) :
  (forallb printable values = true /\ exists texts, mapM toStringJs values = Returns texts)
  \/ (forallb printable values = false /\ mapM toStringJs values = Throws TypeError).
Proof.
  apply mapM_outcome. apply Forall_forall. intros value _. apply toStringJs_outcome.
Qed.




(** *** The recursion of [transformSchema] ends

    The fuel only bounds the recursion: with more fuel than the schema is
    deep, a call returns or throws. *)

Lemma lookup_depth (key : string) (entries : list (string * JsValue)) :
  nestingDepth (lookup key entries) < nestingDepth (JObject entries).
Proof.
  induction entries as [ | [k v] rest IH]; cbn [lookup nestingDepth fold_right snd] in *.
  - lia.
  - destruct (String.eqb k key); lia.
Qed.

Lemma indexedFrom_depth (elements : list JsValue) :
  forall i key x, In (key, x) (indexedFrom i elements) ->
                  nestingDepth x < nestingDepth (JArray elements).
Proof.
  induction elements as [ | y rest IH]; intros i key x Hin; [contradiction | ].
  cbn [indexedFrom nestingDepth fold_right] in *. destruct Hin as [Heq | Hin].
  - injection Heq as _ <-. lia.
  - apply IH in Hin. lia.
Qed.

Lemma charsFrom_depth (s : string) :
  forall i key x, In (key, x) (charsFrom i s) -> nestingDepth x = 0.
Proof.
  induction s as [ | c rest IH]; intros i key x Hin; [contradiction | ].
  cbn [charsFrom] in Hin. destruct Hin as [Heq | Hin].
  - now injection Heq as _ <-.
  - now apply IH in Hin.
Qed.

Lemma entries_depth (entries : list (string * JsValue)) :
  forall key x, In (key, x) entries -> nestingDepth x < nestingDepth (JObject entries).
Proof.
  induction entries as [ | [k v] rest IH]; intros key x Hin; [contradiction | ].
  cbn [nestingDepth fold_right snd] in *. destruct Hin as [Heq | Hin].
  - injection Heq as _ <-. lia.
  - apply IH in Hin. lia.
Qed.

Lemma objectEntries_depth (value : JsValue) (entries : list (string * JsValue)) :
  objectEntries value = Returns entries ->
  forall key x, In (key, x) entries -> nestingDepth x <= nestingDepth value.
Proof.
  destruct value; cbn [objectEntries]; intros Heq key x Hin;
    try discriminate; injection Heq as <-; try contradiction.
  - apply charsFrom_depth in Hin. lia.
  - apply indexedFrom_depth in Hin. lia.
  - apply entries_depth in Hin. lia.
Qed.

Lemma mapM_fuel {A B : Type} (f : A -> completion B) (items : list A) :
  (forall item, In item items -> f item <> OutOfFuel) ->
  mapM f items <> OutOfFuel.
Proof.
  induction items as [ | item rest IH]; intros Hf; cbn [mapM]; [discriminate | ].
  pose proof (Hf item (or_introl eq_refl)) as Hitem.
  destruct (f item); cbn [bind]; try discriminate; [ | contradiction].
  assert (Hrest : mapM f rest <> OutOfFuel).
  { apply IH. intros x Hx. apply Hf. now right. }
  destruct (mapM f rest); cbn [bind]; try discriminate; contradiction.
Qed.

Lemma transformSchema_ends (fuel : nat) :
  forall schema openapi,
    nestingDepth schema < fuel -> transformSchema fuel schema openapi <> OutOfFuel.
Proof.
  induction fuel as [ | fuel IH]; intros schema openapi Hdepth; [lia | ].
  destruct schema as [ | | b | n | s | elements | entries];
    try (cbn; discriminate).
  cbn [transformSchema getProp bind].
  destruct (isString (lookup "type" entries) "object").
  { destruct (objectEntries (lookup "properties" entries)) as [found | | ] eqn:Hentries;
      cbn [bind];
      [ | discriminate | destruct (lookup "properties" entries); discriminate ].
    assert (Hprops :
      mapM (fun entry : string * JsValue =>
              let (key, value) := entry in
              text <- transformSchema fuel value openapi ;;
              Returns (key ++ ": " ++ text)) found <> OutOfFuel).
    { apply mapM_fuel. intros [key value] Hin.
      pose proof (objectEntries_depth _ _ Hentries key value Hin) as Hvalue.
      pose proof (lookup_depth "properties" entries) as Hproperties.
      assert (Hcall : transformSchema fuel value openapi <> OutOfFuel)
        by (apply IH; lia).
      destruct (transformSchema fuel value openapi); cbn [bind];
        try discriminate; contradiction. }
    destruct (mapM _ found); cbn [bind]; try discriminate; contradiction. }
  destruct (isString (lookup "type" entries) "array").
  { pose proof (lookup_depth "items" entries) as Hitems.
    assert (Hcall : transformSchema fuel (lookup "items" entries) openapi <> OutOfFuel)
      by (apply IH; lia).
    destruct (transformSchema fuel (lookup "items" entries) openapi); cbn [bind];
      try discriminate; contradiction. }
  destruct (truthy (lookup "enum" entries)).
  { destruct (lookup "enum" entries) as [ | | b | n | s | values | fields];
      try (cbn; discriminate).
    cbn [arrayMap]. rewrite mapM_then.
    destruct (toStringJs_values values) as [[_ [texts ->]] | [_ ->]];
      cbn [bind]; discriminate. }
  destruct (isString (lookup "type" entries) "string"); [discriminate | ].
  destruct (isString (lookup "type" entries) "number"
            || isString (lookup "type" entries) "integer"); [discriminate | ].
  destruct (isString (lookup "type" entries) "boolean"); [discriminate | ].
  destruct (truthy (lookup "$ref" entries)); [ | discriminate].
  destruct (lookup "$ref" entries); cbn; discriminate.
Qed.

(** ** Worked examples *)

Example transformSchema_user :
  transformSchema 3
    (JObject [("type", JString "object");
              ("properties",
               JObject [("id", JObject [("type", JString "integer")]);
                        ("tags", JObject [("type", JString "array");
                                          ("items", JObject [("type", JString "string")])]);
                        ("status", JObject [("$ref", JString "#/components/schemas/Status")]);
                        ("extra", JObject [("oneOf", JArray [])])])])
    JNull
  = Returns "v.object({ id: v.number(), tags: v.array(v.string()), status: Status, extra: v.any() })".
Proof.
  reflexivity.
Qed.

(** An object schema without [properties] is a recognized shape, and the
    call throws on it. *)
Example transformSchema_object_without_properties :
  transformSchema 1 (JObject [("type", JString "object")]) JNull = Throws TypeError.
Proof.
  reflexivity.
Qed.

(** C4 as stated fails: [null] matches none of the shapes, and the call
    on it throws instead of returning the accept-anything validator, at
    the top, as the schema of a property, and as a schema of the document,
    where it aborts the generation. *)
Lemma null_schema_throws :
  shapeOf JNull = None
  /\ transformSchema 1 JNull JNull = Throws TypeError
  /\ transformSchema 2
       (JObject [("type", JString "object");
                 ("properties", JObject [("extra", JNull)])])
       JNull
     = Throws TypeError
  /\ generateValibotSchemas 1
       (JObject [("components", JObject [("schemas", JObject [("Extra", JNull)])])])
     = Throws TypeError.
Proof.
  repeat split.
Qed.

(** C4, as amended, at the node [{"type":"null"}] and at [null]. *)
Lemma unrecognized_shape_witness :
  (shapeOf (JObject [("type", JString "null")]) = None
   /\ transformSchema 1 (JObject [("type", JString "null")]) JNull = Returns "v.any()")
  /\ (shapeOf JNull = None
      /\ transformSchema 1 JNull JNull = Throws TypeError).
Proof.
  split; (split; [reflexivity | ]).
  - apply (unrecognized_shape_is_any (JObject [("type", JString "null")]) JNull 0).
    reflexivity.
  - apply (unrecognized_shape_is_any JNull JNull 0).
    reflexivity.
Defined.

(** C7 at the node [{"$ref":"#/components/schemas/Status"}]. *)
Lemma ref_status_witness :
  shapeOf (JObject [("$ref", JString "#/components/schemas/Status")]) = Some RefShape
  /\ transformSchema 1 (JObject [("$ref", JString "#/components/schemas/Status")])
       (JObject [("components",
                  JObject [("schemas",
                            JObject [("Status",
                                      JObject [("type", JString "string")])])])])
     = Returns "Status".
Proof.
  split; [reflexivity | ].
  apply (ref_is_last_segment
           (JObject [("$ref", JString "#/components/schemas/Status")])
           (JObject [("components",
                      JObject [("schemas",
                                JObject [("Status",
                                          JObject [("type", JString "string")])])])])
           0 "#/components/schemas/Status"); reflexivity.
Defined.


(** The text of numbers: all the digits up to [2^53], the digits that
    tell the double apart above it, and an exponent from [1e21] on. *)
Example numberText_examples :
  map numberText
    [0; 42; -7; 9007199254740993; 2 ^ 64; 10 ^ 21 - 1; 10 ^ 21; - 10 ^ 22;
     2 ^ 70; 10 ^ 400]%Z
  = ["0"; "42"; "-7"; "9007199254740992"; "18446744073709552000"; "1e+21"; "1e+21";
     "-1e+22"; "1.1805916207174113e+21"; "Infinity"].
Proof.
  vm_compute. reflexivity.
Qed.

(** Enum values that are no strings: numbers, booleans, [null] and nested
    arrays have a text; an object has the text [[object Object]], unless
    it has an own property [toString], on which the call throws. *)
Example enum_values_of_other_types :
  transformSchema 1
    (JObject [("enum", JArray [JNumber 1; JNumber (10 ^ 21); JBool true; JNull;
                               JArray [JNumber 1; JNull; JArray [JString "a"]];
                               JObject [("a", JNumber 1)]])])
    JNull
  = Returns ("v.union([v.literal(" ++ dq ++ "1" ++ dq ++ "), v.literal("
               ++ dq ++ "1e+21" ++ dq ++ "), v.literal("
               ++ dq ++ "true" ++ dq ++ "), v.literal("
               ++ dq ++ "null" ++ dq ++ "), v.literal("
               ++ dq ++ "1,,a" ++ dq ++ "), v.literal("
               ++ dq ++ "[object Object]" ++ dq ++ ")])")
  /\ transformSchema 1
       (JObject [("enum", JArray [JString "a"; JObject [("toString", JNumber 1)]])])
       JNull
     = Throws TypeError
  /\ transformSchema 1
       (JObject [("enum", JArray [JArray [JObject [("toString", JNull)]]])])
       JNull
     = Throws TypeError
  /\ transformSchema 1 (JObject [("enum", JString "active")]) JNull = Throws TypeError.
Proof.
  vm_compute. repeat split.
Qed.

(** C9 as stated fails: for an undefined value, at the top or as the
    value of a field, the inference returns a type text. *)
Lemma undefined_leaf_gets_a_type :
  generateTypeFromValue ChangeCase.pascalCase JUndefined "Root" 0 = "undefined"
  /\ generateTypeFromValue ChangeCase.pascalCase
       (JObject [("leaf", JUndefined)]) "Root" 0
     = "{" ++ nl ++ "  leaf: undefined;" ++ nl ++ "}".
Proof.
  split; reflexivity.
Qed.

(** Field names: an identifier stays bare, anything else is quoted. *)
Example field_names_example :
  generateTypeFromValue ChangeCase.pascalCase
    (JObject [("title", JString "X"); ("$ref", JNull); ("my-key", JArray []);
              ("2nd", JObject [("a b", JBool true)]); ("", JNumber 0)])
    "Root" 0
  = "{" ++ nl ++ "  title: string;" ++ nl ++ "  $ref: null;" ++ nl
      ++ "  " ++ dq ++ "my-key" ++ dq ++ ": any[];" ++ nl
      ++ "  " ++ dq ++ "2nd" ++ dq ++ ": {" ++ nl
      ++ "  " ++ dq ++ "a b" ++ dq ++ ": boolean;" ++ nl ++ "};" ++ nl
      ++ "  " ++ dq ++ dq ++ ": number;" ++ nl ++ "}".
Proof.
  reflexivity.
Qed.

(** * Further properties of the two scripts *)

(** ** The walks over a document *)

Lemma extractMappings_forEach (pascalCase : string -> string) (obj : JsValue)
    (path : string) (mappings : list string) :
  extractMappings pascalCase obj path mappings
  = if isObjectLike obj
    then fold_left
           (fun mappings (entry : string * JsValue) =>
              let (key, value) := entry in
              mappingStep pascalCase path key value
                (extractMappings pascalCase value) mappings)
           (ownEntries obj) mappings
    else mappings.
Proof.
  destruct obj as [ | | b | n | s | elements | entries]; try reflexivity.
  cbn [extractMappings isObjectLike ownEntries].
  generalize 0%nat. revert mappings.
  induction elements as [ | value rest IH]; intros mappings i; [reflexivity | ].
  cbn [indexedFrom fold_left]. apply IH.
Qed.

(** A loop whose step only appends collects what the steps append. *)
Lemma fold_left_appends {A B : Type} (step : list B -> A -> list B)
    (added : A -> list B) (items : list A) :
  (forall acc item, In item items -> step acc item = List.app acc (added item)) ->
  forall acc, fold_left step items acc = List.app acc (flat_map added items).
Proof.
  induction items as [ | item rest IH]; intros Hstep acc; cbn [fold_left flat_map].
  - now rewrite app_nil_r.
  - rewrite IH, Hstep, app_assoc; [reflexivity | now left | ].
    intros acc' item' Hin. apply Hstep. now right.
Qed.

Lemma fold_left_push_only {A B : Type} (step : list B -> A -> list B)
    (items : list A) :
  (forall acc item, In item items -> step acc item = List.app acc (step [] item)) ->
  forall acc, fold_left step items acc = List.app acc (fold_left step items []).
Proof.
  intros Hstep acc.
  rewrite (fold_left_appends step (step []) items Hstep acc).
  now rewrite (fold_left_appends step (step []) items Hstep []).
Qed.

Lemma map_flat_map {A B C : Type} (f : B -> C) (g : A -> list B) (items : list A) :
  map f (flat_map g items) = flat_map (fun item => map f (g item)) items.
Proof.
  induction items as [ | item rest IH]; cbn [flat_map map]; [reflexivity | ].
  now rewrite map_app, IH.
Qed.

Lemma extractKeys_below (value : JsValue) :
  forall entries, value = JObject entries ->
  forall currentPath keys,
    extractKeys value currentPath keys
    = List.app keys (map quotedPath (locatedBelow value currentPath)).
Proof.
  induction value as [ | | b | n | s | elements IH | entries IH]
    using JsValue_ind; intros entries' Heq; try discriminate.
  injection Heq as <-.
  intros currentPath keys.
  cbn [extractKeys locatedBelow]. rewrite map_flat_map.
  apply fold_left_appends.
  intros acc [key child] Hin.
  rewrite Forall_forall in IH. specialize (IH _ Hin). cbn [snd] in IH.
  unfold keyStep.
  destruct child as [ | | b | n | s | elements | children];
    cbn [isPlainObject locatedBelow map]; try reflexivity.
  rewrite (IH children eq_refl).
  unfold push. rewrite <- app_assoc. reflexivity.
Qed.

(** For every document, array or not, the extractor appends the quoted
    path of every entry its walk visits. *)
Lemma extractKeys_located (obj : JsValue) (currentPath : string) (keys : list string) :
  extractKeys obj currentPath keys
  = List.app keys (map quotedPath (located obj currentPath)).
Proof.
  rewrite extractKeys_forEach. unfold located.
  destruct (isObjectLike obj); [ | now rewrite app_nil_r].
  rewrite map_flat_map. apply fold_left_appends.
  intros acc [key child] _. unfold keyStep.
  destruct child as [ | | b | n | s | elements | children];
    cbn [isPlainObject locatedBelow map]; try reflexivity.
  rewrite (extractKeys_below (JObject children) children eq_refl).
  unfold push. rewrite <- app_assoc. reflexivity.
Qed.

Section ValueMap.

Variable pascalCase : string -> string.

Local Abbreviation mappingLine := (mappingLine pascalCase).

Lemma mappingStep_line (path key : string) (value : JsValue)
    (descend : string -> list string -> list string) (mappings : list string) :
  mappingStep pascalCase path key value descend mappings
  = if isPlainObject value
    then descend (joinPath path key)
           (List.app mappings [mappingLine (joinPath path key, value)])
    else List.app mappings [mappingLine (joinPath path key, value)].
Proof.
  unfold mappingStep, mappingLine, push. cbn [fst snd].
  now rewrite (infer_context_free pascalCase value (pascalCase key) 0 "" 0).
Qed.

Lemma extractMappings_below (value : JsValue) :
  forall entries, value = JObject entries ->
  forall path mappings,
    extractMappings pascalCase value path mappings
    = List.app mappings (map mappingLine (locatedBelow value path)).
Proof.
  induction value as [ | | b | n | s | elements IH | entries IH]
    using JsValue_ind; intros entries' Heq; try discriminate.
  injection Heq as <-.
  intros path mappings.
  cbn [extractMappings locatedBelow]. rewrite map_flat_map.
  apply fold_left_appends.
  intros acc [key child] Hin.
  rewrite Forall_forall in IH. specialize (IH _ Hin). cbn [snd] in IH.
  rewrite mappingStep_line.
  destruct child as [ | | b | n | s | elements | children];
    cbn [isPlainObject locatedBelow map]; try reflexivity.
  rewrite (IH children eq_refl).
  rewrite <- app_assoc. reflexivity.
Qed.

Lemma extractMappings_located (obj : JsValue) (path : string) (mappings : list string) :
  extractMappings pascalCase obj path mappings
  = List.app mappings (map mappingLine (located obj path)).
Proof.
  rewrite extractMappings_forEach. unfold located.
  destruct (isObjectLike obj); [ | now rewrite app_nil_r].
  rewrite map_flat_map. apply fold_left_appends.
  intros acc [key child] _. rewrite mappingStep_line.
  destruct child as [ | | b | n | s | elements | children];
    cbn [isPlainObject locatedBelow map]; try reflexivity.
  rewrite (extractMappings_below (JObject children) children eq_refl).
  rewrite <- app_assoc. reflexivity.
Qed.

End ValueMap.

(** X1: the value map has one line per generated key, in the same order
    and under the same quoted path, for every document, and the type in
    the line is the inferred type of the value at that path. *)
Theorem value_map_follows_keys (pascalCase : string -> string) (json : JsValue) :
  generateKeyTypes json "" = map quotedPath (located json "")
  /\ generateValueTypeMapping pascalCase json
     = join nl (map (mappingLine pascalCase) (located json ""))
  /\ length (extractMappings pascalCase json "" []) = length (generateKeyTypes json "").
Proof.
  unfold generateKeyTypes, generateValueTypeMapping.
  rewrite extractKeys_located, extractMappings_located. cbn [app].
  repeat split. now rewrite !length_map.
Qed.

Lemma located_nil (json : JsValue) (prefix : string) :
  located json prefix = [] <-> isObjectLike json = false \/ ownEntries json = [].
Proof.
  unfold located. destruct (isObjectLike json).
  - destruct (ownEntries json) as [ | [key child] rest]; cbn [flat_map].
    + split; auto.
    + split; [discriminate | intros [H | H]; discriminate].
  - split; auto.
Qed.

(** X2: the key list is empty exactly for a document without entries: a
    primitive, [null], an empty object or an empty array. *)
Theorem keys_empty_iff_no_entries (json : JsValue) (prefix : string) :
  generateKeyTypes json prefix = []
  <-> isObjectLike json = false \/ ownEntries json = [].
Proof.
  unfold generateKeyTypes. rewrite extractKeys_located. cbn [app].
  rewrite <- (located_nil json prefix).
  destruct (located json prefix); cbn [map]; split; auto; discriminate.
Qed.

Lemma locatedBelow_prefix (value : JsValue) :
  forall currentPath entry,
    currentPath <> "" ->
    In entry (locatedBelow value currentPath) ->
    exists rest, fst entry = currentPath ++ "." ++ rest.
Proof.
  induction value as [ | | b | n | s | elements IH | entries IH]
    using JsValue_ind; intros currentPath entry Hne Hin; try contradiction.
  cbn [locatedBelow] in Hin. apply in_flat_map in Hin.
  destruct Hin as ([key child] & Hentry & Hin).
  rewrite Forall_forall in IH. specialize (IH _ Hentry). cbn [snd] in IH.
  assert (Hjoin : joinPath currentPath key = currentPath ++ "." ++ key).
  { unfold joinPath. destruct (String.eqb_spec currentPath ""); [contradiction | reflexivity]. }
  rewrite Hjoin in Hin. destruct Hin as [<- | Hin].
  - exists key. reflexivity.
  - apply IH in Hin.
    + destruct Hin as [rest ->]. exists (key ++ "." ++ rest).
      now rewrite !append_assoc.
    + destruct currentPath; [contradiction | discriminate].
Qed.

(** X3: with a prefix that is not empty, every generated key is the
    prefix, a dot and the rest of the path, in quotes. *)
Theorem prefix_starts_every_key (json : JsValue) (prefix : string) :
  prefix <> "" ->
  Forall (fun key => exists rest, key = "'" ++ (prefix ++ "." ++ rest) ++ "'")
    (generateKeyTypes json prefix).
Proof.
  intros Hne. unfold generateKeyTypes. rewrite extractKeys_located. cbn [app].
  apply Forall_forall. intros key Hin.
  apply in_map_iff in Hin. destruct Hin as (entry & <- & Hin).
  unfold located in Hin. apply in_flat_map in Hin.
  destruct Hin as ([name child] & _ & Hin).
  assert (Hjoin : joinPath prefix name = prefix ++ "." ++ name).
  { unfold joinPath. destruct (String.eqb_spec prefix ""); [contradiction | reflexivity]. }
  rewrite Hjoin in Hin. unfold quotedPath. destruct Hin as [<- | Hin].
  - exists name. reflexivity.
  - apply locatedBelow_prefix in Hin.
    + destruct Hin as [rest ->]. exists (name ++ "." ++ rest).
      now rewrite !append_assoc.
    + destruct prefix; [contradiction | discriminate].
Qed.

Lemma prefix_starts_every_key_witness :
  "widget" <> ""
  /\ Forall (fun key => exists rest, key = "'" ++ ("widget" ++ "." ++ rest) ++ "'")
       (generateKeyTypes (JObject [("window", JObject [("title", JString "X")])])
          "widget").
Proof.
  split; [discriminate | ].
  apply (prefix_starts_every_key
           (JObject [("window", JObject [("title", JString "X")])]) "widget").
  discriminate.
Defined.

Section Walks.

Variable pascalCase : string -> string.

Lemma interfaceStep_appends (parentName key : string) (value : JsValue)
    (acc : list string) :
  (forall name interfaces,
      extractInterfaces pascalCase value name interfaces
      = List.app interfaces (extractInterfaces pascalCase value name [])) ->
  interfaceStep pascalCase parentName key value
    (extractInterfaces pascalCase value) acc
  = List.app acc
      (interfaceStep pascalCase parentName key value
         (extractInterfaces pascalCase value) []).
Proof.
  intros Hvalue. unfold interfaceStep.
  destruct (isPlainObject value); [ | now rewrite app_nil_r].
  destruct (3 <? keyCount value)%nat.
  - match goal with
    | |- extractInterfaces _ _ ?name (push acc ?declaration) = _ =>
        rewrite (Hvalue name (push acc declaration)),
          (Hvalue name (push [] declaration))
    end.
    unfold push. cbn [app]. now rewrite <- app_assoc.
  - apply Hvalue.
Qed.

Lemma extractInterfaces_appends (obj : JsValue) :
  forall parentName interfaces,
    extractInterfaces pascalCase obj parentName interfaces
    = List.app interfaces (extractInterfaces pascalCase obj parentName []).
Proof.
  induction obj as [ | | b | n | s | elements IH | entries IH]
    using JsValue_ind; intros parentName interfaces;
    try (cbn; now rewrite app_nil_r).
  - rewrite !(extractInterfaces_forEach pascalCase (JArray elements)).
    cbn [isObjectLike ownEntries].
    apply fold_left_push_only.
    intros acc [key value] Hin. apply interfaceStep_appends.
    rewrite Forall_forall in IH. apply IH.
    clear - Hin. revert Hin. generalize 0%nat.
    induction elements as [ | x rest IHl]; intros i Hin; [contradiction | ].
    cbn [indexedFrom] in Hin. destruct Hin as [Heq | Hin].
    + injection Heq as _ <-. now left.
    + right. now apply (IHl (S i)).
  - cbn [extractInterfaces].
    apply fold_left_push_only.
    intros acc [key value] Hin. apply interfaceStep_appends.
    rewrite Forall_forall in IH. apply (IH _ Hin).
Qed.

(** X4: the three walks only append to the array they are given: what was
    pushed before stays in place, and what a walk adds does not depend on
    it.  The declaration of [WidgetData] therefore always comes first. *)
Theorem walks_only_append (obj : JsValue) (path : string) (pushed : list string) :
  extractKeys obj path pushed = List.app pushed (extractKeys obj path [])
  /\ extractMappings pascalCase obj path pushed
     = List.app pushed (extractMappings pascalCase obj path [])
  /\ extractInterfaces pascalCase obj path pushed
     = List.app pushed (extractInterfaces pascalCase obj path [])
  /\ generateInterfacesFromJson pascalCase obj
     = join (nl ++ nl)
         (("export interface WidgetData "
             ++ generateTypeFromValue pascalCase obj "Root" 0)
            :: extractInterfaces pascalCase obj "" []).
Proof.
  repeat split.
  - now rewrite extractKeys_located, (extractKeys_located _ _ []).
  - now rewrite extractMappings_located, (extractMappings_located _ _ _ []).
  - apply extractInterfaces_appends.
  - unfold generateInterfacesFromJson. now rewrite extractInterfaces_appends.
Qed.

End Walks.

(** ** The generated text depends on the shape of the document only *)

Lemma withoutContents_plain (value : JsValue) :
  isPlainObject (withoutContents value) = isPlainObject value.
Proof.
  now destruct value.
Qed.

Lemma withoutContents_keyCount (value : JsValue) :
  isPlainObject value = true ->
  keyCount (withoutContents value) = keyCount value.
Proof.
  destruct value; try discriminate. intros _.
  unfold keyCount. cbn [withoutContents ownEntries]. apply length_map.
Qed.

Lemma indexedFrom_In (elements : list JsValue) :
  forall i key x, In (key, x) (indexedFrom i elements) -> In x elements.
Proof.
  induction elements as [ | y rest IH]; intros i key x Hin; [contradiction | ].
  cbn [indexedFrom] in Hin. destruct Hin as [Heq | Hin].
  - injection Heq as _ <-. now left.
  - right. now apply (IH (S i) key).
Qed.

Lemma indexedFrom_map (f : JsValue -> JsValue) (elements : list JsValue) :
  forall i,
    indexedFrom i (map f elements)
    = map (fun entry : string * JsValue => (fst entry, f (snd entry)))
        (indexedFrom i elements).
Proof.
  induction elements as [ | x rest IH]; intros i; [reflexivity | ].
  cbn [map indexedFrom fst snd]. now rewrite IH.
Qed.

Lemma withoutContents_entries (value : JsValue) :
  isObjectLike value = true ->
  ownEntries (withoutContents value)
  = map (fun entry : string * JsValue => (fst entry, withoutContents (snd entry)))
      (ownEntries value).
Proof.
  destruct value; try discriminate; intros _; cbn [withoutContents ownEntries].
  - apply indexedFrom_map.
  - reflexivity.
Qed.

Lemma fold_left_map_ext {A B : Type} (step : B -> A -> B) (g : A -> A)
    (items : list A) :
  (forall acc item, In item items -> step acc (g item) = step acc item) ->
  forall acc, fold_left step (map g items) acc = fold_left step items acc.
Proof.
  induction items as [ | item rest IH]; intros Hstep acc; [reflexivity | ].
  cbn [map fold_left]. rewrite Hstep by now left.
  apply IH. intros acc' item' Hin. apply Hstep. now right.
Qed.

Lemma locatedBelow_withoutContents (value : JsValue) :
  forall currentPath,
    locatedBelow (withoutContents value) currentPath
    = map (fun entry : string * JsValue => (fst entry, withoutContents (snd entry)))
        (locatedBelow value currentPath).
Proof.
  induction value as [ | | b | n | s | elements IH | entries IH]
    using JsValue_ind; intros currentPath; try reflexivity.
  cbn [withoutContents locatedBelow].
  induction IH as [ | [key child] rest Hchild _ IHrest]; [reflexivity | ].
  cbn [map flat_map fst snd] in *.
  now rewrite map_app, IHrest, Hchild.
Qed.

Lemma located_withoutContents (json : JsValue) (prefix : string) :
  located (withoutContents json) prefix
  = map (fun entry : string * JsValue => (fst entry, withoutContents (snd entry)))
      (located json prefix).
Proof.
  unfold located.
  assert (Hlike : isObjectLike (withoutContents json) = isObjectLike json)
    by now destruct json.
  rewrite Hlike. destruct (isObjectLike json) eqn:Hjson; [ | reflexivity].
  rewrite withoutContents_entries by assumption.
  induction (ownEntries json) as [ | [key child] rest IHrest]; [reflexivity | ].
  cbn [map flat_map fst snd].
  now rewrite map_app, IHrest, locatedBelow_withoutContents.
Qed.

Section Shape.

Variable pascalCase : string -> string.

Lemma infer_withoutContents (value : JsValue) :
  forall name depth,
    generateTypeFromValue pascalCase (withoutContents value) name depth
    = generateTypeFromValue pascalCase value name depth.
Proof.
  induction value as [ | | b | n | s | elements IH | entries IH]
    using JsValue_ind; intros name d; try reflexivity.
  - destruct elements as [ | first rest]; [reflexivity | ].
    cbn [withoutContents map generateTypeFromValue].
    inversion IH as [ | ? ? Hfirst _]; subst.
    f_equal. apply Hfirst.
  - cbn [withoutContents]. rewrite !infer_object. do 3 f_equal.
    unfold join. f_equal. rewrite map_map.
    induction IH as [ | [key value] rest Hvalue _ IHrest]; [reflexivity | ].
    cbn [map fst snd] in *. now rewrite IHrest, Hvalue.
Qed.

Lemma interfaceStep_withoutContents (parentName key : string) (value : JsValue)
    (acc : list string) :
  (forall name interfaces,
      extractInterfaces pascalCase (withoutContents value) name interfaces
      = extractInterfaces pascalCase value name interfaces) ->
  interfaceStep pascalCase parentName key (withoutContents value)
    (extractInterfaces pascalCase (withoutContents value)) acc
  = interfaceStep pascalCase parentName key value
      (extractInterfaces pascalCase value) acc.
Proof.
  intros Hvalue. unfold interfaceStep.
  rewrite withoutContents_plain.
  destruct (isPlainObject value) eqn:Hplain; [ | reflexivity].
  now rewrite withoutContents_keyCount, infer_withoutContents, Hvalue.
Qed.

Lemma extractInterfaces_withoutContents (obj : JsValue) :
  forall parentName interfaces,
    extractInterfaces pascalCase (withoutContents obj) parentName interfaces
    = extractInterfaces pascalCase obj parentName interfaces.
Proof.
  induction obj as [ | | b | n | s | elements IH | entries IH]
    using JsValue_ind; intros parentName interfaces; try reflexivity.
  - rewrite !extractInterfaces_forEach.
    rewrite withoutContents_entries by reflexivity.
    cbn [withoutContents isObjectLike].
    apply fold_left_map_ext.
    intros acc [key value] Hin. cbn [fst snd].
    apply interfaceStep_withoutContents.
    rewrite Forall_forall in IH. apply IH.
    now apply indexedFrom_In in Hin.
  - rewrite !extractInterfaces_forEach.
    rewrite withoutContents_entries by reflexivity.
    cbn [withoutContents isObjectLike].
    apply fold_left_map_ext.
    intros acc [key value] Hin. cbn [fst snd].
    apply interfaceStep_withoutContents.
    rewrite Forall_forall in IH. apply (IH _ Hin).
Qed.

(** X5: the interfaces, the key list and the value map of a document
    depend on its shape only: replacing the contents of its strings,
    numbers and booleans changes none of them. *)
Theorem output_depends_on_shape_only (json : JsValue) :
  generateInterfacesFromJson pascalCase (withoutContents json)
    = generateInterfacesFromJson pascalCase json
  /\ generateKeyTypes (withoutContents json) "" = generateKeyTypes json ""
  /\ generateValueTypeMapping pascalCase (withoutContents json)
     = generateValueTypeMapping pascalCase json.
Proof.
  repeat split.
  - unfold generateInterfacesFromJson.
    now rewrite extractInterfaces_withoutContents, infer_withoutContents.
  - unfold generateKeyTypes.
    rewrite !extractKeys_located, located_withoutContents, map_map.
    reflexivity.
  - unfold generateValueTypeMapping.
    rewrite !extractMappings_located, located_withoutContents, map_map.
    cbn [app]. f_equal. apply map_ext. intros [path value].
    unfold mappingLine. cbn [fst snd]. now rewrite infer_withoutContents.
Qed.

End Shape.

(** ** The schema transformer, beyond the single shapes *)

Lemma mapM_ext {A B : Type} (f g : A -> completion B) (items : list A) :
  (forall item, In item items -> f item = g item) -> mapM f items = mapM g items.
Proof.
  induction items as [ | item rest IH]; intros Hfg; [reflexivity | ].
  cbn [mapM]. rewrite (Hfg item) by now left.
  rewrite IH; [reflexivity | ]. intros x Hx. apply Hfg. now right.
Qed.

(** X6: the transformer never looks at the document it is handed: the
    result for a schema is the same for every document, so a reference is
    never resolved against it. *)
Theorem transformSchema_ignores_document (fuel : nat) :
  forall schema openapi document,
    transformSchema fuel schema openapi = transformSchema fuel schema document.
Proof.
  induction fuel as [ | fuel IH]; intros schema openapi document; [reflexivity | ].
  cbn [transformSchema].
  destruct (getProp schema "type") as [type | | ]; cbn [bind]; try reflexivity.
  destruct (isString type "object").
  { destruct (getProp schema "properties") as [properties | | ]; cbn [bind];
      try reflexivity.
    destruct (objectEntries properties) as [entries | | ]; cbn [bind];
      try reflexivity.
    erewrite mapM_ext; [reflexivity | ].
    intros [key value] _. cbn. now rewrite (IH value openapi document). }
  destruct (isString type "array"); [ | reflexivity].
  destruct (getProp schema "items") as [items | | ]; cbn [bind]; try reflexivity.
  now rewrite (IH items openapi document).
Qed.

Lemma mapM_more {A B : Type} (f g : A -> completion B) (items : list A) :
  (forall item, In item items -> f item <> OutOfFuel -> g item = f item) ->
  mapM f items <> OutOfFuel -> mapM g items = mapM f items.
Proof.
  induction items as [ | item rest IH]; intros Hfg Hends; [reflexivity | ].
  cbn [mapM] in *.
  assert (Hitem : f item <> OutOfFuel).
  { intros H. rewrite H in Hends. now apply Hends. }
  rewrite (Hfg item (or_introl eq_refl) Hitem).
  destruct (f item) as [b | e | ]; cbn [bind] in *; try reflexivity.
  assert (Hrest : mapM f rest <> OutOfFuel).
  { intros H. rewrite H in Hends. now apply Hends. }
  rewrite IH; [reflexivity | | assumption].
  intros x Hx. apply Hfg. now right.
Qed.

Lemma transformSchema_unfold (fuel : nat) (schema openapi : JsValue) :
  transformSchema (S fuel) schema openapi
  = transformStep (transformSchema fuel) schema openapi.
Proof.
  reflexivity.
Qed.

Lemma transformStep_more (recur recur' : JsValue -> JsValue -> completion string)
    (schema openapi : JsValue) :
  (forall value, recur value openapi <> OutOfFuel ->
                 recur' value openapi = recur value openapi) ->
  transformStep recur schema openapi <> OutOfFuel ->
  transformStep recur' schema openapi = transformStep recur schema openapi.
Proof.
  intros Hrecur Hends. unfold transformStep in *.
  destruct (getProp schema "type") as [type | | ]; cbn [bind] in *;
    try reflexivity.
  destruct (isString type "object").
  { destruct (getProp schema "properties") as [properties | | ]; cbn [bind] in *;
      try reflexivity.
    destruct (objectEntries properties) as [entries | | ]; cbn [bind] in *;
      try reflexivity.
    match type of Hends with
    | bind (mapM ?f entries) _ <> _ =>
        assert (Hprops : mapM f entries <> OutOfFuel)
    end.
    { intros H. rewrite H in Hends. now apply Hends. }
    erewrite mapM_more; [reflexivity | | exact Hprops].
    intros [key value] _ Hcall. cbn in *.
    rewrite Hrecur; [reflexivity | ].
    intros H. rewrite H in Hcall. now apply Hcall. }
  destruct (isString type "array"); [ | reflexivity].
  destruct (getProp schema "items") as [items | | ]; cbn [bind] in *;
    try reflexivity.
  rewrite Hrecur; [reflexivity | ].
  intros H. rewrite H in Hends. now apply Hends.
Qed.

Lemma transformSchema_more_fuel (fuel : nat) :
  forall schema openapi,
    transformSchema fuel schema openapi <> OutOfFuel ->
    transformSchema (S fuel) schema openapi = transformSchema fuel schema openapi.
Proof.
  induction fuel as [ | fuel IH]; intros schema openapi Hends.
  - now contradiction Hends.
  - rewrite (transformSchema_unfold (S fuel)), (transformSchema_unfold fuel) in *.
    apply transformStep_more; [ | assumption].
    intros value. apply IH.
Qed.

(** X7: on every schema the transformer ends, with a text or with an
    exception, and the outcome is the same for every depth of recursion
    that exceeds the nesting depth of the schema. *)
Theorem transformSchema_outcome (schema openapi : JsValue) (fuel more : nat) :
  nestingDepth schema < fuel ->
  fuel <= more ->
  transformSchema fuel schema openapi <> OutOfFuel
  /\ transformSchema more schema openapi = transformSchema fuel schema openapi.
Proof.
  intros Hdepth Hmore.
  pose proof (transformSchema_ends fuel schema openapi Hdepth) as Hends.
  split; [assumption | ].
  induction Hmore as [ | more Hmore IH]; [reflexivity | ].
  rewrite transformSchema_more_fuel; [assumption | ].
  now rewrite IH.
Qed.

Lemma transformSchema_outcome_witness :
  nestingDepth (JObject [("type", JString "array");
                         ("items", JObject [("type", JString "string")])]) < 3
  /\ 3 <= 7
  /\ transformSchema 7
       (JObject [("type", JString "array");
                 ("items", JObject [("type", JString "string")])]) JNull
     = transformSchema 3
         (JObject [("type", JString "array");
                   ("items", JObject [("type", JString "string")])]) JNull.
Proof.
  split; [cbn; lia | split; [lia | ]].
  apply (transformSchema_outcome
           (JObject [("type", JString "array");
                     ("items", JObject [("type", JString "string")])])
           JNull 3 7); cbn; lia.
Defined.

Lemma shape_not_nullish (schema : JsValue) (shape : Shape) :
  shapeOf schema = Some shape -> isNullish schema = false.
Proof.
  destruct schema; intros H; try reflexivity; cbn in H; discriminate.
Qed.

Lemma arrayMap_then {B C : Type} (f : JsValue -> completion B) (g : B -> C)
    (value : JsValue) :
  arrayMap (fun item => b <- f item ;; Returns (g b)) value
  = (bs <- arrayMap f value ;; Returns (map g bs)).
Proof.
  destruct value; try reflexivity. apply mapM_then.
Qed.

(** One call of the transformer on a schema node, by the shape of the
    node. *)
Lemma transformStep_shape (recur : JsValue -> JsValue -> completion string)
    (schema openapi : JsValue) :
  isNullish schema = false ->
  transformStep recur schema openapi
  = match shapeOf schema with
    | Some ObjectShape =>
        entries <- objectEntries (field schema "properties") ;;
        props <- mapM (fun entry : string * JsValue =>
                         let (key, value) := entry in
                         text <- recur value openapi ;;
                         Returns (key ++ ": " ++ text))
                   entries ;;
        Returns ("v.object({ " ++ join ", " props ++ " })")
    | Some ArrayShape =>
        text <- recur (field schema "items") openapi ;;
        Returns ("v.array(" ++ text ++ ")")
    | Some EnumShape =>
        texts <- arrayMap toStringJs (field schema "enum") ;;
        Returns ("v.union([" ++ join ", " (map literalValidator texts) ++ "])")
    | Some RefShape =>
        parts <- stringSplit (field schema "$ref") "/" ;;
        Returns (pop parts)
    | Some shape => Returns (primitiveValidator shape)
    | None => Returns "v.any()"
    end.
Proof.
  intros Hnode. unfold transformStep, shapeOf. cbn [decisionOrder firstMatch].
  rewrite !getProp_field by assumption. cbn [bind].
  destruct (isString (field schema "type") "object"); [reflexivity | ].
  destruct (isString (field schema "type") "array"); [reflexivity | ].
  destruct (truthy (field schema "enum")).
  { change (fun v : JsValue =>
              text <- toStringJs v ;; Returns ("v.literal(" ++ dq ++ text ++ dq ++ ")"))
      with (fun v : JsValue => text <- toStringJs v ;; Returns (literalValidator text)).
    rewrite arrayMap_then.
    destruct (arrayMap toStringJs (field schema "enum")); reflexivity. }
  destruct (isString (field schema "type") "string"); [reflexivity | ].
  destruct (isString (field schema "type") "number"
            || isString (field schema "type") "integer"); [reflexivity | ].
  destruct (isString (field schema "type") "boolean"); [reflexivity | ].
  destruct (truthy (field schema "$ref")); reflexivity.
Qed.

(** X8: on every schema node the transformer does what the shape of the
    node says, the first matching shape of the decision order: an object
    validator over the properties, an array validator around the items, a
    union of the literals of the texts of the enum values, one of the
    three primitive validators, the last segment of the reference, or the
    accept-anything validator; it throws on [null] and [undefined] and
    where reading the properties, converting an enum value or splitting
    the reference throws. *)
Theorem transformSchema_by_shape (fuel : nat) (schema openapi : JsValue) :
  transformSchema (S fuel) schema openapi
  = if isNullish schema then Throws TypeError
    else
      match shapeOf schema with
      | Some ObjectShape =>
          entries <- objectEntries (field schema "properties") ;;
          props <- mapM (fun entry : string * JsValue =>
                           let (key, value) := entry in
                           text <- transformSchema fuel value openapi ;;
                           Returns (key ++ ": " ++ text))
                     entries ;;
          Returns ("v.object({ " ++ join ", " props ++ " })")
      | Some ArrayShape =>
          text <- transformSchema fuel (field schema "items") openapi ;;
          Returns ("v.array(" ++ text ++ ")")
      | Some EnumShape =>
          texts <- arrayMap toStringJs (field schema "enum") ;;
          Returns ("v.union([" ++ join ", " (map literalValidator texts) ++ "])")
      | Some RefShape =>
          parts <- stringSplit (field schema "$ref") "/" ;;
          Returns (pop parts)
      | Some shape => Returns (primitiveValidator shape)
      | None => Returns "v.any()"
      end.
Proof.
  rewrite transformSchema_unfold.
  destruct (isNullish schema) eqn:Hnode; [ | now apply transformStep_shape].
  destruct schema; try discriminate; reflexivity.
Qed.

(** X8 at an integer schema, at an enum of numbers and at [null]. *)
Example shapes_decide_examples :
  transformSchema 1 (JObject [("type", JString "integer")]) JNull = Returns "v.number()"
  /\ transformSchema 1 (JObject [("enum", JArray [JNumber 1; JNumber 2])]) JNull
     = Returns ("v.union([v.literal(" ++ dq ++ "1" ++ dq ++ "), v.literal("
                  ++ dq ++ "2" ++ dq ++ ")])")
  /\ transformSchema 1 JNull JNull = Throws TypeError.
Proof.
  repeat split.
Qed.

Lemma field_depth (schema : JsValue) (key : string) :
  isNullish (field schema key) = false ->
  nestingDepth (field schema key) < nestingDepth schema.
Proof.
  destruct schema; cbn [field]; try discriminate. intros _. apply lookup_depth.
Qed.

Lemma ownEntries_depth (value : JsValue) (key : string) (x : JsValue) :
  In (key, x) (ownEntries value) -> nestingDepth x <= nestingDepth value.
Proof.
  destruct value; cbn [ownEntries]; intros Hin; try contradiction.
  - apply charsFrom_depth in Hin. lia.
  - apply indexedFrom_depth in Hin. lia.
  - apply entries_depth in Hin. lia.
Qed.

Lemma mapM_returns {A B : Type} (f : A -> completion B) (items : list A) :
  (forall item, In item items -> exists b, f item = Returns b) ->
  exists bs, mapM f items = Returns bs.
Proof.
  induction items as [ | item rest IH]; intros Hf; cbn [mapM].
  - now exists [].
  - destruct (Hf item (or_introl eq_refl)) as [b ->].
    destruct IH as [bs ->]; [intros x Hx; apply Hf; now right | ].
    cbn [bind]. now exists (b :: bs).
Qed.

Lemma mapM_returns_inv {A B : Type} (f : A -> completion B) (items : list A)
    (bs : list B) :
  mapM f items = Returns bs ->
  Forall2 (fun item b => f item = Returns b) items bs.
Proof.
  revert bs.
  induction items as [ | item rest IH]; intros bs Hm; cbn [mapM] in Hm.
  - injection Hm as <-. constructor.
  - destruct (f item) as [b | | ] eqn:Hitem; cbn [bind] in Hm; try discriminate.
    destruct (mapM f rest) as [bs' | | ]; cbn [bind] in Hm; try discriminate.
    injection Hm as <-. constructor; [assumption | now apply IH].
Qed.

Lemma transformable_not_nullish (schema : JsValue) :
  Transformable schema -> isNullish schema = false.
Proof.
  intros H. inversion H; subst; try assumption;
    eapply shape_not_nullish; eassumption.
Qed.

Lemma transformable_returns (fuel : nat) :
  forall schema openapi,
    Transformable schema ->
    nestingDepth schema < fuel ->
    exists text, transformSchema fuel schema openapi = Returns text.
Proof.
  induction fuel as [ | fuel IH]; intros schema openapi Hschema Hdepth; [lia | ].
  rewrite transformSchema_unfold,
    (transformStep_shape _ _ _ (transformable_not_nullish _ Hschema)).
  inversion Hschema as [node Hshape Hprops Hall | node Hshape Hitems
                        | node values Hshape Hvalues Hprintable
                        | node target Hshape Htarget
                        | node shape Hshape Hprimitive | node Hnode Hshape];
    subst node; rewrite Hshape.
  - unfold objectEntries. rewrite Hprops. cbn [bind].
    pose proof (field_depth _ _ Hprops) as Hbelow.
    destruct (mapM_returns
                (fun entry : string * JsValue =>
                   let (key, value) := entry in
                   text <- transformSchema fuel value openapi ;;
                   Returns (key ++ ": " ++ text))
                (ownEntries (field schema "properties"))) as [props Hmap].
    + intros [key value] Hin.
      rewrite Forall_forall in Hall.
      destruct (IH value openapi (Hall _ Hin)) as [text Htext].
      * apply ownEntries_depth in Hin. lia.
      * rewrite Htext. cbn [bind]. eauto.
    + rewrite Hmap. cbn [bind]. eauto.
  - pose proof (field_depth _ _ (transformable_not_nullish _ Hitems)) as Hbelow.
    destruct (IH (field schema "items") openapi Hitems) as [text Htext]; [lia | ].
    rewrite Htext. cbn [bind]. eauto.
  - rewrite Hvalues. cbn [arrayMap].
    destruct (toStringJs_values values) as [[_ [texts ->]] | [Hnot _]];
      [ | rewrite Hprintable in Hnot; discriminate].
    cbn [bind]. eauto.
  - rewrite Htarget. cbn [stringSplit bind]. eauto.
  - destruct Hprimitive as [-> | [-> | ->]]; eauto.
  - eauto.
Qed.

Lemma returns_transformable (fuel : nat) :
  forall schema openapi text,
    transformSchema fuel schema openapi = Returns text -> Transformable schema.
Proof.
  induction fuel as [ | fuel IH]; intros schema openapi text Hcall; [discriminate | ].
  rewrite transformSchema_unfold in Hcall.
  destruct (isNullish schema) eqn:Hnode.
  { destruct schema; discriminate. }
  rewrite transformStep_shape in Hcall by assumption.
  destruct (shapeOf schema) as [shape | ] eqn:Hshape;
    [ | now apply transformable_other].
  destruct shape.
  - unfold objectEntries in Hcall.
    destruct (isNullish (field schema "properties")) eqn:Hprops; [discriminate | ].
    cbn [bind] in Hcall.
    destruct (mapM _ (ownEntries (field schema "properties"))) as [props | | ] eqn:Hmap;
      try discriminate.
    apply transformable_object; try assumption.
    apply mapM_returns_inv in Hmap. clear Hcall.
    induction Hmap as [ | [key value] line rest lines Hline _ IHrest];
      [constructor | ].
    constructor; [ | assumption].
    cbn [snd].
    destruct (transformSchema fuel value openapi) as [found | | ] eqn:Hvalue;
      try discriminate.
    now apply (IH value openapi found).
  - destruct (transformSchema fuel (field schema "items") openapi)
      as [found | | ] eqn:Hitems; try discriminate.
    apply transformable_array; [assumption | ].
    now apply (IH _ openapi found).
  - destruct (field schema "enum") as [ | | b | n | s | values | entries] eqn:Hvalues;
      try discriminate.
    apply (transformable_enum schema values); try assumption.
    cbn [arrayMap] in Hcall.
    destruct (toStringJs_values values) as [[Hall _] | [_ Hthrows]]; [assumption | ].
    rewrite Hthrows in Hcall. discriminate.
  - apply (transformable_primitive schema StringShape); auto.
  - apply (transformable_primitive schema NumberShape); auto.
  - apply (transformable_primitive schema BooleanShape); auto.
  - destruct (field schema "$ref") as [ | | b | n | target | values | entries] eqn:Htarget;
      try discriminate.
    now apply (transformable_ref schema target).
Qed.

(** X9: the transformer returns a text exactly for the schemas on which
    no step can throw, and throws a [TypeError] for every other one: an
    object schema needs its [properties], an array schema its [items], an
    enum an array of values that have a text, a reference a string, at
    every depth. *)
Theorem returns_iff_transformable (schema openapi : JsValue) (fuel : nat) :
  nestingDepth schema < fuel ->
  ((exists text, transformSchema fuel schema openapi = Returns text)
   <-> Transformable schema)
  /\ (~ Transformable schema ->
      transformSchema fuel schema openapi = Throws TypeError).
Proof.
  intros Hdepth. split; [split | ].
  - intros [text Hcall]. now apply (returns_transformable fuel schema openapi text).
  - intros Hschema. now apply transformable_returns.
  - intros Hnot.
    pose proof (transformSchema_ends fuel schema openapi Hdepth) as Hends.
    destruct (transformSchema fuel schema openapi) as [text | [] | ] eqn:Hcall.
    + contradiction Hnot. now apply (returns_transformable fuel schema openapi text).
    + reflexivity.
    + now contradiction Hends.
Qed.

(** X9 at an object schema without [properties] and at an enum with a
    value that has no text. *)
Lemma returns_iff_transformable_witness :
  (nestingDepth (JObject [("type", JString "object")]) < 2
   /\ ~ Transformable (JObject [("type", JString "object")])
   /\ transformSchema 2 (JObject [("type", JString "object")]) JNull = Throws TypeError)
  /\ (nestingDepth (JObject [("enum", JArray [JObject [("toString", JNumber 1)]])]) < 4
      /\ ~ Transformable (JObject [("enum", JArray [JObject [("toString", JNumber 1)]])])
      /\ transformSchema 4 (JObject [("enum", JArray [JObject [("toString", JNumber 1)]])])
           JNull
         = Throws TypeError).
Proof.
  assert (Hobject : ~ Transformable (JObject [("type", JString "object")])).
  { intros H. inversion H as [node Hshape Hprops Hall | node Hshape Hitems
                              | node values Hshape Hvalues Hprintable
                              | node target Hshape Htarget
                              | node shape Hshape Hprimitive | node Hnode Hshape];
      subst; try discriminate.
    cbn in Hshape. injection Hshape as <-.
    destruct Hprimitive as [H' | [H' | H']]; discriminate. }
  assert (Henum : ~ Transformable
                      (JObject [("enum", JArray [JObject [("toString", JNumber 1)]])])).
  { intros H. inversion H as [node Hshape Hprops Hall | node Hshape Hitems
                              | node values Hshape Hvalues Hprintable
                              | node target Hshape Htarget
                              | node shape Hshape Hprimitive | node Hnode Hshape];
      subst; try discriminate.
    - cbn in Hvalues. injection Hvalues as <-. discriminate.
    - cbn in Hshape. injection Hshape as <-.
      destruct Hprimitive as [H' | [H' | H']]; discriminate. }
  split.
  - split; [cbn; lia | split; [exact Hobject | ]].
    apply (returns_iff_transformable (JObject [("type", JString "object")]) JNull 2);
      [cbn; lia | exact Hobject].
  - split; [cbn; lia | split; [exact Henum | ]].
    apply (returns_iff_transformable
             (JObject [("enum", JArray [JObject [("toString", JNumber 1)]])]) JNull 4);
      [cbn; lia | exact Henum].
Defined.

Lemma append_nil_r (s : string) : s ++ "" = s.
Proof.
  induction s as [ | c s IH]; cbn; [reflexivity | now rewrite IH].
Qed.

Lemma join_empty_cons (first : string) (rest : list string) :
  join "" (first :: rest) = first ++ join "" rest.
Proof.
  unfold join. destruct rest; cbn [String.concat]; [now rewrite append_nil_r | reflexivity].
Qed.

(** X10: an object schema whose property schemas are all transformed to a
    text becomes the object validator that lists every property with its
    text, in the order of [properties]. *)
Theorem object_schema_lists_properties (fuel : nat) (schema openapi : JsValue)
    (texts : list string) :
  shapeOf schema = Some ObjectShape ->
  isNullish (field schema "properties") = false ->
  Forall2 (fun (entry : string * JsValue) text =>
             transformSchema fuel (snd entry) openapi = Returns text)
    (ownEntries (field schema "properties")) texts ->
  transformSchema (S fuel) schema openapi
  = Returns ("v.object({ "
               ++ join ", "
                    (map propertyText
                       (combine (ownEntries (field schema "properties")) texts))
               ++ " })").
Proof.
  intros Hshape Hprops Htexts.
  rewrite transformSchema_unfold,
    (transformStep_shape _ _ _ (shape_not_nullish _ _ Hshape)), Hshape.
  unfold objectEntries. rewrite Hprops. cbn [bind].
  match goal with
  | |- bind ?m _ = _ =>
      assert (Hmap : m = Returns (map propertyText
                                    (combine (ownEntries (field schema "properties"))
                                       texts)))
  end.
  { induction Htexts as [ | [key value] text rest texts Htext _ IHrest];
      [reflexivity | ].
    cbn [mapM combine map snd] in *. rewrite Htext, IHrest. reflexivity. }
  now rewrite Hmap.
Qed.

Lemma object_schema_lists_properties_witness :
  transformSchema 2
    (JObject [("type", JString "object");
              ("properties", JObject [("id", JObject [("type", JString "integer")]);
                                      ("name", JObject [("type", JString "string")])])])
    JNull
  = Returns "v.object({ id: v.number(), name: v.string() })".
Proof.
  apply (object_schema_lists_properties 1
           (JObject [("type", JString "object");
                     ("properties",
                      JObject [("id", JObject [("type", JString "integer")]);
                               ("name", JObject [("type", JString "string")])])])
           JNull ["v.number()"; "v.string()"]);
    [reflexivity | reflexivity | ].
  repeat constructor.
Defined.

(** ** The generated module *)

Lemma exportSchemas_all (fuel : nat) (openapi : JsValue)
    (schemas : list (string * JsValue)) (texts : list string) :
  Forall2 (fun (entry : string * JsValue) text =>
             transformSchema fuel (snd entry) openapi = Returns text)
    schemas texts ->
  forall valibotSchema,
    exportSchemas fuel openapi schemas valibotSchema
    = Returns (valibotSchema ++ join "" (map exportText (combine schemas texts))).
Proof.
  induction 1 as [ | [name schema] text rest texts Htext _ IHrest];
    intros valibotSchema.
  - cbn. now rewrite append_nil_r.
  - cbn [exportSchemas combine map snd] in *. rewrite Htext. cbn [bind].
    rewrite IHrest, join_empty_cons. unfold exportText at 2. cbn [fst snd].
    now rewrite !append_assoc.
Qed.

Lemma exportSchemas_aborts (fuel : nat) (openapi : JsValue)
    (schemas : list (string * JsValue)) :
  Forall (fun entry => transformSchema fuel (snd entry) openapi <> OutOfFuel) schemas ->
  Exists (fun entry => transformSchema fuel (snd entry) openapi = Throws TypeError)
    schemas ->
  forall valibotSchema,
    exportSchemas fuel openapi schemas valibotSchema = Throws TypeError.
Proof.
  induction schemas as [ | [name schema] rest IH]; intros Hends Hthrows valibotSchema.
  - inversion Hthrows.
  - cbn [exportSchemas]. inversion Hends as [ | ? ? Hhead Hrest]; subst.
    cbn [snd] in Hhead.
    destruct (transformSchema fuel schema openapi) as [text | [] | ] eqn:Hcall;
      cbn [bind]; [ | reflexivity | now contradiction Hhead].
    apply IH; [assumption | ].
    inversion Hthrows as [? ? Hhere | ? ? Hlater]; subst; [ | assumption].
    cbn [snd] in Hhere. congruence.
Qed.

Lemma truthy_not_nullish (value : JsValue) :
  truthy value = true -> isNullish value = false.
Proof.
  now destruct value.
Qed.

Lemma truthy_field (node : JsValue) (key : string) :
  truthy (field node key) = true -> isNullish node = false.
Proof.
  intros H. apply (field_defined node key). intros Heq. now rewrite Heq in H.
Qed.

(** X11: when every schema of [components.schemas] is transformed to a
    text, the module is the import line followed by one exported constant
    per schema, under the name of the schema and in the order of the
    document; the schemas are not reordered by their references. *)
Theorem module_exports_in_document_order (fuel : nat) (openapi : JsValue)
    (texts : list string) :
  truthy (field openapi "components") = true ->
  truthy (field (field openapi "components") "schemas") = true ->
  Forall2 (fun (entry : string * JsValue) text =>
             transformSchema fuel (snd entry) openapi = Returns text)
    (ownEntries (field (field openapi "components") "schemas")) texts ->
  generateValibotSchemas fuel openapi
  = Returns (valibotImport
               ++ join ""
                    (map exportText
                       (combine
                          (ownEntries (field (field openapi "components") "schemas"))
                          texts))).
Proof.
  intros Hcomponents Hschemas Htexts. unfold generateValibotSchemas.
  rewrite (getProp_field openapi) by now apply truthy_field in Hcomponents.
  cbn [bind]. rewrite Hcomponents.
  rewrite getProp_field by now apply truthy_not_nullish.
  cbn [bind]. rewrite Hschemas.
  now apply exportSchemas_all.
Qed.

Lemma module_exports_in_document_order_witness :
  generateValibotSchemas 3
    (JObject [("components",
               JObject [("schemas",
                         JObject [("User",
                                   JObject [("type", JString "object");
                                            ("properties",
                                             JObject [("status",
                                                       JObject [("$ref",
                                                                 JString "#/components/schemas/Status")])])]);
                                  ("Status",
                                   JObject [("type", JString "string");
                                            ("enum", JArray [JString "active"])])])])])
  = Returns ("import * as v from 'valibot';" ++ nl ++ nl
               ++ "export const User = v.object({ status: Status });" ++ nl ++ nl
               ++ "export const Status = v.union([v.literal(" ++ dq ++ "active" ++ dq
               ++ ")]);" ++ nl ++ nl).
Proof.
  refine (eq_trans
            (module_exports_in_document_order 3 _
               ["v.object({ status: Status })";
                "v.union([v.literal(" ++ dq ++ "active" ++ dq ++ ")])"] _ _ _) _);
    [reflexivity | reflexivity | repeat constructor | reflexivity].
Defined.

(** X12: one schema on which the transformer throws aborts the whole
    module: the function throws and returns no text, whatever the other
    schemas are. *)
Theorem failing_schema_aborts_module (fuel : nat) (openapi : JsValue) :
  truthy (field openapi "components") = true ->
  truthy (field (field openapi "components") "schemas") = true ->
  Forall (fun entry => transformSchema fuel (snd entry) openapi <> OutOfFuel)
    (ownEntries (field (field openapi "components") "schemas")) ->
  Exists (fun entry => transformSchema fuel (snd entry) openapi = Throws TypeError)
    (ownEntries (field (field openapi "components") "schemas")) ->
  generateValibotSchemas fuel openapi = Throws TypeError.
Proof.
  intros Hcomponents Hschemas Hends Hthrows. unfold generateValibotSchemas.
  rewrite (getProp_field openapi) by now apply truthy_field in Hcomponents.
  cbn [bind]. rewrite Hcomponents.
  rewrite getProp_field by now apply truthy_not_nullish.
  cbn [bind]. rewrite Hschemas.
  now apply exportSchemas_aborts.
Qed.

Lemma failing_schema_aborts_module_witness :
  generateValibotSchemas 2
    (JObject [("components",
               JObject [("schemas",
                         JObject [("Name", JObject [("type", JString "string")]);
                                  ("Bag", JObject [("type", JString "object")])])])])
  = Throws TypeError.
Proof.
  apply failing_schema_aborts_module; [reflexivity | reflexivity | | ].
  - repeat constructor; cbn; discriminate.
  - apply Exists_cons_tl. apply Exists_cons_hd. reflexivity.
Defined.

(** X13: for a document without [components], or with [components] but
    without [schemas], the module is the import line alone; for a document
    that is [null] the function throws. *)
Theorem module_without_schemas (fuel : nat) (openapi : JsValue) :
  (isNullish openapi = true -> generateValibotSchemas fuel openapi = Throws TypeError)
  /\ (isNullish openapi = false ->
      truthy (field openapi "components") = false
      \/ truthy (field (field openapi "components") "schemas") = false ->
      generateValibotSchemas fuel openapi = Returns valibotImport).
Proof.
  split.
  - destruct openapi; try discriminate; reflexivity.
  - intros Hnode Hnone. unfold generateValibotSchemas.
    rewrite getProp_field by assumption. cbn [bind].
    destruct (truthy (field openapi "components")) eqn:Hcomponents; [ | reflexivity].
    destruct Hnone as [Hnone | Hnone]; [discriminate | ].
    rewrite getProp_field by now apply truthy_not_nullish.
    cbn [bind]. now rewrite Hnone.
Qed.

(** ** The generated keys and the class [Widget] *)

Lemma splitOn_single (separator : ascii) (text : string) :
  hasChar separator text = false -> splitOn separator text = [text].
Proof.
  induction text as [ | c rest IH]; cbn [hasChar splitOn]; [reflexivity | ].
  intros H. apply orb_false_iff in H. destruct H as [Hc Hrest].
  rewrite Hc, (IH Hrest). reflexivity.
Qed.

Lemma splitOn_app (separator : ascii) (before after : string) :
  splitOn separator (before ++ String separator after)
  = List.app (splitOn separator before) (splitOn separator after).
Proof.
  induction before as [ | c rest IH]; cbn [append splitOn].
  - now rewrite Ascii.eqb_refl.
  - destruct (Ascii.eqb c separator).
    + now rewrite IH.
    + rewrite IH.
      pose proof (splitOn_nonempty separator rest) as Hne.
      destruct (splitOn separator rest) as [ | piece pieces]; [contradiction | ].
      reflexivity.
Qed.

Lemma lookupOwn_In (entries : list (string * JsValue)) (key : string) (child : JsValue) :
  noRepeat (map fst entries) = true ->
  In (key, child) entries ->
  Widget.lookupOwn key entries = Some child.
Proof.
  induction entries as [ | [k v] rest IH]; intros Hkeys Hin; [contradiction | ].
  cbn [map fst noRepeat Widget.lookupOwn] in *.
  apply andb_true_iff in Hkeys. destruct Hkeys as [Hfresh Hrest].
  destruct Hin as [Heq | Hin].
  - injection Heq as -> ->. now rewrite String.eqb_refl.
  - destruct (String.eqb_spec k key) as [-> | Hne]; [ | now apply IH].
    apply negb_true_iff in Hfresh.
    assert (Hfound : existsb (String.eqb key) (map fst rest) = true).
    { apply existsb_exists. exists key. split; [ | apply String.eqb_refl].
      apply in_map_iff. now exists (key, child). }
    congruence.
Qed.

Section WidgetKeys.

Variable native : Type.
Variable inherited : JsValue -> string -> option native.
Variable nativeObject : native -> bool.
Variable nativeProperty : native -> string -> option native.

Lemma locatedBelow_resolves (value : JsValue) :
  forall entries, value = JObject entries ->
  dotFreeKeys value = true ->
  forall currentPath trail text found,
    In (text, found) (locatedBelow value currentPath) ->
    currentPath <> "" ->
    splitOn "." currentPath = trail ->
    exists keys,
      splitOn "." text = List.app trail keys
      /\ Widget.getLoop inherited nativeObject nativeProperty keys value = Widget.Value found
      /\ Widget.hasLoop inherited nativeObject nativeProperty keys value = true.
Proof.
  induction value as [ | | b | n | s | elements IH | entries IH]
    using JsValue_ind; intros entries' Heq; try discriminate.
  injection Heq as <-.
  intros Hkeys currentPath trail text found Hin Hne Htrail.
  cbn [dotFreeKeys] in Hkeys. apply andb_true_iff in Hkeys.
  destruct Hkeys as [Hdistinct Hall].
  cbn [locatedBelow] in Hin. apply in_flat_map in Hin.
  destruct Hin as ([key child] & Hentry & Hin).
  rewrite forallb_forall in Hall. specialize (Hall _ Hentry). cbn in Hall.
  apply andb_true_iff in Hall. destruct Hall as [Hdot Hchild].
  apply negb_true_iff in Hdot.
  rewrite Forall_forall in IH. specialize (IH _ Hentry). cbn [snd] in IH.
  assert (Hjoin : joinPath currentPath key = currentPath ++ String "." key).
  { unfold joinPath. destruct (String.eqb_spec currentPath ""); [contradiction | reflexivity]. }
  rewrite Hjoin in Hin.
  assert (Hsplit : splitOn "." (currentPath ++ String "." key) = List.app trail [key]).
  { now rewrite splitOn_app, Htrail, splitOn_single. }
  pose proof (lookupOwn_In entries key child Hdistinct Hentry) as Hown.
  destruct Hin as [Heq | Hin].
  - injection Heq as <- <-. exists [key]. split; [assumption | ].
    cbn [Widget.getLoop Widget.hasLoop truthy isObjectLike andb Widget.ownProperty].
    now rewrite Hown.
  - destruct child as [ | | b | n | s | elements | children]; try contradiction.
    destruct (IH children eq_refl Hchild (currentPath ++ String "." key)
                (List.app trail [key]) text found Hin)
      as (keys & Hkeys & Hget & Hhas);
      [destruct currentPath; [contradiction | discriminate] | exact Hsplit | ].
    exists (key :: keys). split; [now rewrite Hkeys, <- app_assoc | ].
    cbn [Widget.getLoop Widget.hasLoop truthy isObjectLike andb Widget.ownProperty].
    now rewrite Hown.
Qed.

Lemma located_resolves (entries : list (string * JsValue)) (text : string)
    (found : JsValue) :
  dotFreeKeys (JObject entries) = true ->
  namedEntries (JObject entries) = true ->
  In (text, found) (located (JObject entries) "") ->
  Widget.get inherited nativeObject nativeProperty (JObject entries) text = Widget.Value found
  /\ Widget.has inherited nativeObject nativeProperty (JObject entries) text = true.
Proof.
  intros Hkeys Hnamed Hin.
  unfold located in Hin. cbn [isObjectLike ownEntries] in Hin.
  apply in_flat_map in Hin. destruct Hin as ([key child] & Hentry & Hin).
  unfold namedEntries in Hnamed. cbn [ownEntries] in Hnamed.
  rewrite forallb_forall in Hnamed. specialize (Hnamed _ Hentry). cbn [fst] in Hnamed.
  apply negb_true_iff in Hnamed. apply String.eqb_neq in Hnamed.
  change (joinPath "" key) with key in Hin.
  pose proof Hkeys as Hroot.
  cbn [dotFreeKeys] in Hroot. apply andb_true_iff in Hroot.
  destruct Hroot as [Hdistinct Hall].
  rewrite forallb_forall in Hall. specialize (Hall _ Hentry). cbn in Hall.
  apply andb_true_iff in Hall. destruct Hall as [Hdot Hchild].
  apply negb_true_iff in Hdot.
  pose proof (lookupOwn_In entries key child Hdistinct Hentry) as Hown.
  assert (Hkey : splitOn "." key = [key]) by now apply splitOn_single.
  assert (Hwalk : exists keys,
             splitOn "." text = key :: keys
             /\ Widget.getLoop inherited nativeObject nativeProperty (key :: keys) (JObject entries)
                = Widget.Value found
             /\ Widget.hasLoop inherited nativeObject nativeProperty (key :: keys) (JObject entries) = true).
  { destruct Hin as [Heq | Hin].
    - injection Heq as <- <-. exists []. split; [assumption | ].
      cbn [Widget.getLoop Widget.hasLoop truthy isObjectLike andb Widget.ownProperty].
      now rewrite Hown.
    - destruct child as [ | | b | n | s | elements | children]; try contradiction.
      destruct (locatedBelow_resolves (JObject children) children eq_refl Hchild
                  key [key] text found Hin Hnamed Hkey) as (keys & Hsplit & Hget & Hhas).
      exists keys. split; [assumption | ].
      cbn [Widget.getLoop Widget.hasLoop truthy isObjectLike andb Widget.ownProperty].
      now rewrite Hown. }
  destruct Hwalk as (keys & Hsplit & Hget & Hhas).
  unfold Widget.get, Widget.has.
  destruct (String.eqb_spec text "") as [-> | _].
  - cbn in Hsplit. injection Hsplit as <- _. now contradiction Hnamed.
  - now rewrite Hsplit.
Qed.

(** X14: for a document that is an object whose keys are distinct and
    hold no dot, and whose own keys are not empty, every generated key
    resolves: [has] answers true for its path and [get] returns the value
    the walk found there. *)
Theorem generated_keys_resolve (entries : list (string * JsValue)) :
  dotFreeKeys (JObject entries) = true ->
  namedEntries (JObject entries) = true ->
  Forall (fun key =>
            exists text found,
              key = "'" ++ text ++ "'"
              /\ In (text, found) (located (JObject entries) "")
              /\ Widget.get inherited nativeObject nativeProperty (JObject entries) text = Widget.Value found
              /\ Widget.has inherited nativeObject nativeProperty (JObject entries) text = true)
    (generateKeyTypes (JObject entries) "").
Proof.
  intros Hkeys Hnamed. unfold generateKeyTypes.
  rewrite extractKeys_located. cbn [app].
  apply Forall_forall. intros key Hin.
  apply in_map_iff in Hin. destruct Hin as ([text found] & <- & Hin).
  exists text, found. split; [reflexivity | split; [assumption | ]].
  now apply located_resolves.
Qed.

Lemma hasNative_false (keys : list string) :
  forall current : native,
    Widget.hasNative nativeObject nativeProperty keys current = false ->
    Widget.getNative nativeObject nativeProperty keys current = Widget.Value JUndefined.
Proof.
  induction keys as [ | k rest IH]; intros current Hhas; [discriminate | ].
  cbn [Widget.hasNative Widget.getNative] in *.
  destruct (nativeObject current); [ | reflexivity].
  destruct (nativeProperty current k) as [value | ]; [now apply IH | reflexivity].
Qed.

Lemma hasLoop_false (keys : list string) :
  forall current,
    Widget.hasLoop inherited nativeObject nativeProperty keys current = false ->
    Widget.getLoop inherited nativeObject nativeProperty keys current
    = Widget.Value JUndefined.
Proof.
  induction keys as [ | k rest IH]; intros current Hhas; [discriminate | ].
  cbn [Widget.hasLoop Widget.getLoop] in *.
  destruct (truthy current && isObjectLike current); [ | reflexivity].
  destruct (Widget.ownProperty current k) as [value | ]; [now apply IH | ].
  destruct (inherited current k) as [value | ]; [ | reflexivity].
  now apply hasNative_false.
Qed.

(** X15: [get] and [has] agree: whenever [has] answers false for a path,
    [get] returns [undefined] for it, also when the path leads over a
    property that the data inherits from a prototype. *)
Theorem has_false_get_undefined (data : JsValue) (key : string) :
  Widget.has inherited nativeObject nativeProperty data key = false ->
  Widget.get inherited nativeObject nativeProperty data key = Widget.Value JUndefined.
Proof.
  unfold Widget.has, Widget.get.
  destruct (String.eqb key ""); [discriminate | apply hasLoop_false].
Qed.

End WidgetKeys.

Lemma generated_keys_resolve_witness :
  dotFreeKeys (JObject [("widget", JObject [("title", JString "X")])]) = true
  /\ namedEntries (JObject [("widget", JObject [("title", JString "X")])]) = true
  /\ Forall (fun key =>
               exists text found,
                 key = "'" ++ text ++ "'"
                 /\ In (text, found)
                      (located (JObject [("widget", JObject [("title", JString "X")])]) "")
                 /\ Widget.get Widget.sampleInherited Widget.sampleObject
                      Widget.sampleProperty
                      (JObject [("widget", JObject [("title", JString "X")])]) text
                    = Widget.Value found
                 /\ Widget.has Widget.sampleInherited Widget.sampleObject
                      Widget.sampleProperty
                      (JObject [("widget", JObject [("title", JString "X")])]) text
                    = true)
       (generateKeyTypes (JObject [("widget", JObject [("title", JString "X")])]) "").
Proof.
  split; [reflexivity | split; [reflexivity | ]].
  apply (generated_keys_resolve Widget.sample Widget.sampleInherited Widget.sampleObject
           Widget.sampleProperty
           [("widget", JObject [("title", JString "X")])]); reflexivity.
Defined.

(** X15 at a path that ends on a missing key and at paths that lead over
    the inherited [toString] and [__proto__]. *)
Lemma has_false_get_undefined_witness :
  (Widget.has Widget.sampleInherited Widget.sampleObject Widget.sampleProperty
     (JObject [("widget", JObject [("title", JString "X")])]) "widget.size" = false
   /\ Widget.get Widget.sampleInherited Widget.sampleObject Widget.sampleProperty
        (JObject [("widget", JObject [("title", JString "X")])]) "widget.size"
      = Widget.Value JUndefined)
  /\ (Widget.has Widget.sampleInherited Widget.sampleObject Widget.sampleProperty
        (JObject [("widget", JObject [("title", JString "X")])]) "widget.toString.name"
      = false
      /\ Widget.get Widget.sampleInherited Widget.sampleObject Widget.sampleProperty
           (JObject [("widget", JObject [("title", JString "X")])]) "widget.toString.name"
         = Widget.Value JUndefined)
  /\ (Widget.has Widget.sampleInherited Widget.sampleObject Widget.sampleProperty
        (JObject [("widget", JObject [("title", JString "X")])])
        "widget.__proto__.__proto__.toString"
      = false
      /\ Widget.get Widget.sampleInherited Widget.sampleObject Widget.sampleProperty
           (JObject [("widget", JObject [("title", JString "X")])])
           "widget.__proto__.__proto__.toString"
         = Widget.Value JUndefined).
Proof.
  split; [ | split]; (split; [reflexivity | ]).
  - apply (has_false_get_undefined Widget.sample Widget.sampleInherited
             Widget.sampleObject Widget.sampleProperty
             (JObject [("widget", JObject [("title", JString "X")])]) "widget.size").
    reflexivity.
  - apply (has_false_get_undefined Widget.sample Widget.sampleInherited
             Widget.sampleObject Widget.sampleProperty
             (JObject [("widget", JObject [("title", JString "X")])])
             "widget.toString.name").
    reflexivity.
  - apply (has_false_get_undefined Widget.sample Widget.sampleInherited
             Widget.sampleObject Widget.sampleProperty
             (JObject [("widget", JObject [("title", JString "X")])])
             "widget.__proto__.__proto__.toString").
    reflexivity.
Defined.

(** The walks of [get] and [has] over inherited properties: a method and
    a prototype are found, and so is a method of the prototype; nothing is
    found below a method. *)
Example inherited_properties :
  Widget.has Widget.sampleInherited Widget.sampleObject Widget.sampleProperty
    (JObject [("widget", JObject [("title", JString "X")])]) "widget.toString" = true
  /\ Widget.get Widget.sampleInherited Widget.sampleObject Widget.sampleProperty
       (JObject [("widget", JObject [("title", JString "X")])]) "widget.toString"
     = Widget.Builtin Widget.Method
  /\ Widget.get Widget.sampleInherited Widget.sampleObject Widget.sampleProperty
       (JObject [("widget", JObject [("title", JString "X")])])
       "widget.__proto__.hasOwnProperty"
     = Widget.Builtin Widget.Method
  /\ Widget.has Widget.sampleInherited Widget.sampleObject Widget.sampleProperty
       (JObject [("widget", JObject [("title", JString "X")])]) "widget.toString.name"
     = false.
Proof.
  repeat split.
Qed.

(** ** The generated keys are distinct *)

Lemma noRepeat_cons (key : string) (keys : list string) :
  noRepeat (key :: keys) = true -> ~ In key keys /\ noRepeat keys = true.
Proof.
  cbn [noRepeat]. intros H. apply andb_true_iff in H. destruct H as [Hfresh Hrest].
  split; [ | assumption].
  intros Hin. apply negb_true_iff in Hfresh.
  assert (Hfound : existsb (String.eqb key) keys = true).
  { apply existsb_exists. exists key. split; [assumption | apply String.eqb_refl]. }
  congruence.
Qed.

(** The text of an entry below an object continues the path of the object
    with the key of one of its entries. *)
Lemma locatedBelow_split (value : JsValue) :
  forall entries, value = JObject entries ->
  dotFreeKeys value = true ->
  forall currentPath trail text,
    In text (map fst (locatedBelow value currentPath)) ->
    currentPath <> "" ->
    splitOn "." currentPath = trail ->
    exists key rest,
      In key (map fst entries) /\ splitOn "." text = List.app trail (key :: rest).
Proof.
  induction value as [ | | b | n | s | elements IH | entries IH]
    using JsValue_ind; intros entries' Heq; try discriminate.
  injection Heq as <-.
  intros Hkeys currentPath trail text Hin Hne Htrail.
  cbn [dotFreeKeys] in Hkeys. apply andb_true_iff in Hkeys.
  destruct Hkeys as [_ Hall].
  apply in_map_iff in Hin. destruct Hin as ([text' found] & Htext & Hin).
  cbn [fst] in Htext. subst text'.
  cbn [locatedBelow] in Hin. apply in_flat_map in Hin.
  destruct Hin as ([key child] & Hentry & Hin).
  rewrite forallb_forall in Hall. specialize (Hall _ Hentry). cbn in Hall.
  apply andb_true_iff in Hall. destruct Hall as [Hdot Hchild].
  apply negb_true_iff in Hdot.
  rewrite Forall_forall in IH. specialize (IH _ Hentry). cbn [snd] in IH.
  assert (Hjoin : joinPath currentPath key = currentPath ++ String "." key).
  { unfold joinPath. destruct (String.eqb_spec currentPath ""); [contradiction | reflexivity]. }
  rewrite Hjoin in Hin.
  assert (Hsplit : splitOn "." (currentPath ++ String "." key) = List.app trail [key]).
  { now rewrite splitOn_app, Htrail, splitOn_single. }
  exists key.
  assert (Hkey : In key (map fst entries)).
  { apply in_map_iff. now exists (key, child). }
  destruct Hin as [Heq | Hin].
  - injection Heq as <- _. exists []. now split.
  - destruct child as [ | | b | n | s | elements | children]; try contradiction.
    destruct (IH children eq_refl Hchild (currentPath ++ String "." key)
                (List.app trail [key]) text) as (key' & rest & _ & Hrest).
    + apply in_map_iff. now exists (text, found).
    + destruct currentPath; [contradiction | discriminate].
    + exact Hsplit.
    + exists (key' :: rest). split; [assumption | ].
      now rewrite Hrest, <- app_assoc.
Qed.

Lemma locatedBelow_distinct (value : JsValue) :
  forall entries, value = JObject entries ->
  dotFreeKeys value = true ->
  forall currentPath,
    currentPath <> "" ->
    NoDup (map fst (locatedBelow value currentPath)).
Proof.
  induction value as [ | | b | n | s | elements IH | entries IH]
    using JsValue_ind; intros entries' Heq; try discriminate.
  injection Heq as <-.
  intros Hkeys currentPath Hne.
  cbn [dotFreeKeys] in Hkeys. apply andb_true_iff in Hkeys.
  destruct Hkeys as [Hdistinct Hall].
  cbn [locatedBelow].
  induction IH as [ | [key child] rest Hchild _ IHrest]; [constructor | ].
  cbn [map fst forallb] in Hdistinct, Hall.
  apply noRepeat_cons in Hdistinct. destruct Hdistinct as [Hfresh Hdistinct].
  apply andb_true_iff in Hall. destruct Hall as [Hhead Hall].
  apply andb_true_iff in Hhead. destruct Hhead as [Hdot Hok].
  apply negb_true_iff in Hdot. cbn [snd] in Hchild.
  assert (Hjoin : joinPath currentPath key = currentPath ++ String "." key).
  { unfold joinPath. destruct (String.eqb_spec currentPath ""); [contradiction | reflexivity]. }
  assert (Hsplit : splitOn "." (currentPath ++ String "." key)
                   = List.app (splitOn "." currentPath) [key]).
  { now rewrite splitOn_app, (splitOn_single "." key Hdot). }
  assert (Hbelow : joinPath currentPath key <> "").
  { rewrite Hjoin. destruct currentPath; [contradiction | discriminate]. }
  assert (Hblock : forall text,
             In text (map fst ((joinPath currentPath key, child)
                                 :: locatedBelow child (joinPath currentPath key))) ->
             exists more,
               splitOn "." text = List.app (splitOn "." currentPath) (key :: more)).
  { intros text [Heq | Hin].
    - cbn [fst] in Heq. subst text. exists []. now rewrite Hjoin.
    - destruct child as [ | | b | n | s | elements | children]; try contradiction.
      destruct (locatedBelow_split (JObject children) children eq_refl Hok
                  _ _ text Hin Hbelow eq_refl) as (key' & more & _ & Hmore).
      exists (key' :: more). now rewrite Hmore, Hjoin, Hsplit, <- app_assoc. }
  cbn [flat_map]. rewrite map_app. apply NoDup_app.
  - cbn [map fst]. constructor.
    + intros Hin.
      destruct child as [ | | b | n | s | elements | children]; try contradiction.
      destruct (locatedBelow_split (JObject children) children eq_refl Hok
                  _ _ _ Hin Hbelow eq_refl) as (key' & more & _ & Hmore).
      apply (f_equal (@length string)) in Hmore.
      rewrite length_app in Hmore. cbn [length] in Hmore. lia.
    + destruct child as [ | | b | n | s | elements | children]; try constructor.
      now apply (Hchild children eq_refl).
  - now apply IHrest.
  - intros text Hhere Hthere.
    destruct (Hblock text Hhere) as [more Hmore].
    apply in_map_iff in Hthere. destruct Hthere as ([text' found] & Htext & Hin).
    cbn [fst] in Htext. subst text'.
    assert (Hlater : In text (map fst (locatedBelow (JObject rest) currentPath))).
    { apply in_map_iff. now exists (text, found). }
    assert (Hrest : dotFreeKeys (JObject rest) = true).
    { cbn [dotFreeKeys]. now rewrite Hdistinct, Hall. }
    destruct (locatedBelow_split (JObject rest) rest eq_refl Hrest
                _ _ text Hlater Hne eq_refl) as (key' & more' & Hkey' & Hmore').
    rewrite Hmore in Hmore'. apply app_inv_head in Hmore'.
    injection Hmore' as -> _. contradiction.
Qed.

(** X16: for a document that is an object whose keys are distinct and
    hold no dot, and whose own keys are not empty, the generated keys are
    pairwise distinct. *)
Theorem generated_keys_distinct (entries : list (string * JsValue)) :
  dotFreeKeys (JObject entries) = true ->
  namedEntries (JObject entries) = true ->
  NoDup (generateKeyTypes (JObject entries) "").
Proof.
  intros Hkeys Hnamed.
  assert (Hquoted : forall a b, "'" ++ a ++ "'" = "'" ++ b ++ "'" -> a = b).
  { intros a b H. injection H as H. revert b H.
    induction a as [ | c a IH]; intros [ | d b] H; cbn in H; try reflexivity.
    - injection H as _ H. destruct b; discriminate.
    - injection H as _ H. destruct a; discriminate.
    - injection H as -> H. f_equal. now apply IH. }
  unfold generateKeyTypes. rewrite extractKeys_located. cbn [app].
  assert (Htexts : NoDup (map fst (located (JObject entries) ""))).
  { unfold located. cbn [isObjectLike ownEntries].
    unfold namedEntries in Hnamed. cbn [ownEntries] in Hnamed.
    assert (Hsame : flat_map
                      (fun entry : string * JsValue =>
                         let (key, child) := entry in
                         (joinPath "" key, child) :: locatedBelow child (joinPath "" key))
                      entries
                    = flat_map
                        (fun entry : string * JsValue =>
                           let (key, child) := entry in
                           (key, child) :: locatedBelow child key)
                        entries) by reflexivity.
    rewrite Hsame. clear Hsame.
    cbn [dotFreeKeys] in Hkeys. apply andb_true_iff in Hkeys.
    destruct Hkeys as [Hdistinct Hall].
    induction entries as [ | [key child] rest IHrest]; [constructor | ].
    cbn [map fst forallb] in Hdistinct, Hall, Hnamed.
    apply noRepeat_cons in Hdistinct. destruct Hdistinct as [Hfresh Hdistinct].
    apply andb_true_iff in Hall. destruct Hall as [Hhead Hall].
    apply andb_true_iff in Hhead. destruct Hhead as [Hdot Hok].
    apply negb_true_iff in Hdot.
    apply andb_true_iff in Hnamed. destruct Hnamed as [Hkey Hnamed].
    apply negb_true_iff in Hkey. apply String.eqb_neq in Hkey.
    assert (Hsplit : splitOn "." key = [key]) by now apply splitOn_single.
    assert (Hblock : forall text,
               In text (map fst ((key, child) :: locatedBelow child key)) ->
               exists more, splitOn "." text = key :: more).
    { intros text [Heq | Hin].
      - cbn [fst] in Heq. subst text. now exists [].
      - destruct child as [ | | b | n | s | elements | children]; try contradiction.
        destruct (locatedBelow_split (JObject children) children eq_refl Hok
                    key [key] text Hin Hkey Hsplit) as (key' & more & _ & Hmore).
        now exists (key' :: more). }
    cbn [flat_map]. rewrite map_app. apply NoDup_app.
    - cbn [map fst]. constructor.
      + intros Hin.
        destruct child as [ | | b | n | s | elements | children]; try contradiction.
        destruct (locatedBelow_split (JObject children) children eq_refl Hok
                    key [key] key Hin Hkey Hsplit) as (key' & more & _ & Hmore).
        rewrite Hsplit in Hmore. discriminate.
      + destruct child as [ | | b | n | s | elements | children]; try constructor.
        now apply (locatedBelow_distinct (JObject children) children eq_refl).
    - now apply IHrest.
    - intros text Hhere Hthere.
      destruct (Hblock text Hhere) as [more Hmore].
      apply in_map_iff in Hthere. destruct Hthere as ([text' found] & Htext & Hin).
      cbn [fst] in Htext. subst text'.
      apply in_flat_map in Hin. destruct Hin as ([key' child'] & Hentry & Hin).
      rewrite forallb_forall in Hall, Hnamed.
      pose proof (Hall _ Hentry) as Hentry_ok. cbn in Hentry_ok.
      apply andb_true_iff in Hentry_ok. destruct Hentry_ok as [Hdot' Hok'].
      apply negb_true_iff in Hdot'.
      pose proof (Hnamed _ Hentry) as Hkey'. cbn [fst] in Hkey'.
      apply negb_true_iff in Hkey'. apply String.eqb_neq in Hkey'.
      assert (Hfirst : exists more', splitOn "." text = key' :: more').
      { destruct Hin as [Heq | Hin].
        - injection Heq as <- _. exists []. now apply splitOn_single.
        - destruct child' as [ | | b | n | s | elements | children]; try contradiction.
          destruct (locatedBelow_split (JObject children) children eq_refl Hok'
                      key' [key'] text) as (key'' & more' & _ & Hmore').
          + apply in_map_iff. now exists (text, found).
          + assumption.
          + now apply splitOn_single.
          + now exists (key'' :: more'). }
      destruct Hfirst as [more' Hmore'].
      rewrite Hmore in Hmore'. injection Hmore' as -> _.
      apply Hfresh. apply in_map_iff. now exists (key', child'). }
  clear Hkeys Hnamed.
  induction (located (JObject entries) "") as [ | [text found] rest IHrest];
    [constructor | ].
  cbn [map fst] in *. inversion Htexts as [ | ? ? Hfresh Hrest]; subst.
  constructor; [ | now apply IHrest].
  intros Hin. apply in_map_iff in Hin. destruct Hin as ([text' found'] & Heq & Hin).
  unfold quotedPath in Heq. cbn [fst] in Heq. apply Hquoted in Heq. subst text'.
  apply Hfresh. apply in_map_iff. now exists (text, found').
Qed.

Lemma generated_keys_distinct_witness :
  dotFreeKeys (JObject [("widget", JObject [("title", JString "X")]);
                        ("title", JNull)]) = true
  /\ namedEntries (JObject [("widget", JObject [("title", JString "X")]);
                            ("title", JNull)]) = true
  /\ NoDup (generateKeyTypes
              (JObject [("widget", JObject [("title", JString "X")]);
                        ("title", JNull)]) "").
Proof.
  split; [reflexivity | split; [reflexivity | ]].
  apply generated_keys_distinct; reflexivity.
Defined.
